(** * FILM frame interpolation nodes ([nodes/image_interpolation.py])

    A shallow embedding of the two plugin nodes [LoadFilmModel] and
    [FilmInterpolation], followed by the properties stated about them.

    The nodes are thin adapters: the filesystem, the host (logging,
    progress bar, interruption flag) and the inference library are
    collaborators.  They are represented by
    - a directory tree for the filesystem,
    - a type class [Delegate] for the opaque tensor and inference
      libraries (stubbed by an instance in [Stub]),
    - a machine state recording, in order, the calls a node makes to its
      collaborators.

    [LoadFilmModel.get_models], which neither entry point calls, is left
    out. *)

From Stdlib Require Import ZArith Ascii.
From stdpp Require Import base list strings gmap.

Local Open Scope string_scope.
Local Open Scope list_scope.
Set Warnings "-register-all,-notation-for-abbreviation".

(** ** Paths and the filesystem *)

(** A [pathlib.Path], as the list of its components below the root. *)
Definition Path : Type := list string.

(** [p / name] of pathlib, for a [name] that is a single component (as the
    literals and the three presets of this module are). *)
Definition joinpath (p : Path) (name : string) : Path := (p ++ [name])%list.

Declare Scope path_scope.
Delimit Scope path_scope with path.
Bind Scope path_scope with Path.
Infix "/" := joinpath : path_scope.

(** [Path.as_posix()] of an absolute path. *)
Definition as_posix (p : Path) : string := "/" +:+ String.concat "/" p.

(** The filesystem is a tree of directories and files.  A symbolic link
    that resolves stands as what it resolves to; one that does not is a
    [Dangling] entry: it is listed in its directory, but nothing exists
    at it or below it. *)
Inductive Node : Type :=
| File
| Dangling
| Dir (entries : list (string * Node)).

Fixpoint entry (name : string) (entries : list (string * Node)) : option Node :=
  match entries with
  | [] => None
  | (n, child) :: rest => if decide (n = name) then Some child else entry name rest
  end.

(** Walk [p] down from [node]; [None] when a component is missing or when
    the walk would have to go through a regular file. *)
Fixpoint stat (node : Node) (p : Path) : option Node :=
  match p with
  | [] => Some node
  | name :: p' =>
      match node with
      | Dir entries =>
          match entry name entries with
          | Some child => stat child p'
          | None => None
          end
      | File | Dangling => None
      end
  end.

(** [Path.exists()], which follows symbolic links. *)
Definition path_exists (root : Node) (p : Path) : bool :=
  match stat root p with
  | Some Dangling => false
  | Some _ => true
  | None => false
  end.

(** ** Listing a directory, and paths as strings *)

(** [s.endswith(suffix)]: some tail of [s] is [suffix]. *)
Fixpoint endswith (s suffix : string) : bool :=
  (s =? suffix)%string
  || match s with
     | EmptyString => false
     | String _ s' => endswith s' suffix
     end.

(** Whether the character [c] occurs in [s]. *)
Fixpoint occurs (c : Ascii.ascii) (s : string) : bool :=
  match s with
  | EmptyString => false
  | String c' s' => Ascii.eqb c' c || occurs c s'
  end.

(** The pieces of [s] between its slashes. *)
Fixpoint split_slash (s : string) : list string :=
  match s with
  | EmptyString => [EmptyString]
  | String c s' =>
      if Ascii.eqb c "/"%char
      then EmptyString :: split_slash s'
      else match split_slash s' with
           | part :: parts => String c part :: parts
           | [] => [String c EmptyString]
           end
  end.

(** [Path(x)] for a string [x] that starts with one slash: pathlib drops
    the empty pieces and the pieces ["."]. *)
Definition Path_of_string (x : string) : Path :=
  List.filter (fun part => negb (part =? "")%string && negb (part =? ".")%string)
    (split_slash x).

(** [glob.has_magic]. *)
Definition has_magic (s : string) : bool :=
  occurs "*"%char s || occurs "?"%char s || occurs "["%char s.

(** The names a directory entry can have. *)
Definition is_name (name : string) : bool :=
  negb (name =? "")%string && negb (name =? ".")%string
  && negb (name =? "..")%string && negb (occurs "/"%char name).

(** A name that [glob] reads literally. *)
Definition is_plain (name : string) : bool :=
  is_name name && negb (has_magic name).

(** [os.scandir]: the names in a directory; nothing when [dir] is missing
    or is not a directory ([glob] swallows the [OSError]). *)
Definition listdir (root : Node) (dir : Path) : list string :=
  match stat root dir with
  | Some (Dir entries) => remove_dups (entries.*1)
  | _ => []
  end.

(** [glob._ishidden]. *)
Definition ishidden (name : string) : bool :=
  match name with
  | String "."%char _ => true
  | _ => false
  end.

(** [glob.glob(os.path.join(dir, "*"))] for a [dir] whose components are
    plain: the names of [dir] that are not hidden, each joined to [dir].
    Python gives them in no particular order; here they come in the order
    of the listing. *)
Definition glob_star (root : Node) (dir : Path) : list string :=
  (fun name => as_posix (dir / name)%path)
    <$> List.filter (fun name => negb (ishidden name)) (listdir root dir).

(** ** The delegate libraries *)

(** What a Python generator does when it is driven to the end: a finite
    run of yields closed by a normal return or by an exception. *)
Inductive Generator (Y E : Type) : Type :=
| Yield (frame : Y) (rest : Generator Y E)
| StopIteration
| Raise (exn : E).
Arguments Yield {Y E} frame rest.
Arguments StopIteration {Y E}.
Arguments Raise {Y E} exn.

(** numpy, torch, tensorflow and [frame_interpolation.eval], as far as this
    module uses them.  A yielded frame is [inl a] when it is a
    [np.ndarray] and [inr t] otherwise (already a tensor). *)
Class Delegate : Type := {
  ndarray : Type;
  Tensor : Type;
  Interpolator : Type;
  Device : Type;
  DelegateError : Type;
  DType : Type;
  (** [torch.from_numpy] *)
  from_numpy : ndarray -> Tensor;
  (** [tensor.shape] of one image *)
  shape : Tensor -> list nat;
  (** [tensor.dtype] *)
  dtype : Tensor -> DType;
  (** [torch.promote_types] *)
  promote_types : DType -> DType -> DType;
  (** [tensor.to(dtype)] *)
  to_dtype : DType -> Tensor -> Tensor;
  (** [interpolator.Interpolator(path, None)]: may fail inside the library *)
  Interpolator_init : string -> DelegateError + Interpolator;
  (** [util.interpolate_recursively_from_memory(frames, times, model)] *)
  interpolate_recursively_from_memory :
    list Tensor -> Z -> Interpolator -> Generator (ndarray + Tensor) DelegateError;
  (** A tensor cast to its own dtype is itself; a cast changes the dtype
      and keeps the shape; a dtype promotes with itself to itself. *)
  to_dtype_same : forall t, to_dtype (dtype t) t = t;
  shape_to_dtype : forall d t, shape (to_dtype d t) = shape t;
  dtype_to_dtype : forall d t, dtype (to_dtype d t) = d;
  promote_types_same : forall d, promote_types d d = d;
}.

(** A batch of images ([torch.Tensor] whose first dimension indexes the
    images) is the list of its images. *)
Notation Batch := (list Tensor).

(** What the generator yields: an array or a tensor. *)
Notation Frame := (ndarray + Tensor)%type.

(** ** Exceptions, log records and host calls *)

Inductive Level : Type := DEBUG | INFO | WARNING | ERROR.

(** The f-strings of the module, with the formatted objects kept as data. *)
Inductive Message `{Delegate} : Type :=
| ModelDoesNotExist (model_path : Path)
    (* f"Model {model_path} does not exist" *)
| LoadingModel (model_path : Path)
    (* f"Loading model {model_path}" *)
| GpuNotAvailable
    (* "Tensorflow GPU not available, falling back to CPU this will be very slow" *)
| GpuAvailable (available_gpus : list Device)
    (* f"Tensorflow GPU available, using {available_gpus}" *)
| WillInterpolate (num_frames : Z)
    (* f"Will interpolate into {num_frames} frames" *)
| Returning (len : nat)
    (* f"Returning {len(out_tensors)} tensors" *)
| OutputShape (out_tensors : Batch)
    (* f"Output shape {out_tensors.shape}" *)
| OutputType (out_tensors : Batch)
    (* f"Output type {out_tensors.dtype}" *).

(** Why [torch.cat] refuses its argument. *)
Inductive Cat_failure : Type :=
| EmptyList
| SizeMismatch.

Inductive Exception `{Delegate} : Type :=
| ValueError (msg : Message)
    (* raised by [load_model]; the specification's NotFoundError *)
| InterruptProcessingException
    (* raised by the host's [throw_exception_if_processing_interrupted];
       the specification's CancelledError *)
| TorchCatError (cause : Cat_failure)
    (* raised by [torch.cat]; its Python class ([RuntimeError],
       [ValueError]) depends on the cause and on the version of torch,
       which the module does not pin *)
| DelegateInferenceError (exn : DelegateError)
    (* anything raised inside the inference library *).

(** Calls to the collaborators, in the order they are made. *)
Inductive Event `{Delegate} : Type :=
| Log (level : Level) (msg : Message)
| InterpolatorInit (model_path : string)
| InterpolateRecursively (frames : list Tensor) (times : Z) (model : Interpolator)
| Next (frame : Frame)
| ProgressBarInit (total : Z)
| ProgressBarUpdate (value : Z)
| InterruptPoll.

(** ** Machine state and the state-and-exception monad *)

(** [events]: the calls made so far.  [polls]: how many times the
    interruption flag has been read.  [out_tensors]: the list object of
    that name in [do_interpolation], mutated by [append]. *)
Record Machine `{Delegate} : Type := {
  events : list Event;
  polls : nat;
  out_tensors : list Tensor;
}.

Definition init `{Delegate} : Machine :=
  {| events := []; polls := 0; out_tensors := [] |}.

Definition M `{Delegate} (A : Type) : Type := Machine -> (Exception + A) * Machine.

Definition ret `{Delegate} {A} (a : A) : M A := fun s => (inr a, s).

Definition bind `{Delegate} {A B} (m : M A) (k : A -> M B) : M B :=
  fun s =>
    match m s with
    | (inr a, s') => k a s'
    | (inl e, s') => (inl e, s')
    end.

Definition raise `{Delegate} {A} (e : Exception) : M A := fun s => (inl e, s).

Declare Scope py_scope.
Delimit Scope py_scope with py.
Notation "x <- c1 ;; c2" := (bind c1 (fun x => c2))
  (at level 100, c1 at next level, right associativity) : py_scope.
Notation "c1 ;; c2" := (bind c1 (fun _ => c2))
  (at level 100, right associativity) : py_scope.

Definition emit `{Delegate} (ev : Event) : M unit :=
  fun s => (inr tt, {| events := events s ++ [ev];
                       polls := polls s;
                       out_tensors := out_tensors s |}).

(** [log.<level>(msg)] *)
Definition log `{Delegate} (level : Level) (msg : Message) : M unit :=
  emit (Log level msg).

(** ** The declared input schemas *)

Inductive Option_value : Type :=
| OInt (z : Z)
| OStr (s : string).

(** First component of a declaration: a list of choices or a type tag. *)
Inductive Input_type : Type :=
| Choices (names : list string)
| Tag (name : string).

(** [(type, {options})], or the 1-tuple [(type,)]. *)
Definition Declaration : Type := Input_type * option (gmap string Option_value).

(** [{"required": {name: declaration}}] *)
Definition Schema : Type := gmap string (gmap string Declaration).

(** A value the host may hand to an input: a string, an integer, or an
    object of some declared type coming from another node. *)
Inductive Value : Type :=
| VStr (s : string)
| VInt (z : Z)
| VObject (tag : string).

Definition option_of (d : Declaration) (key : string) : option Option_value :=
  match d.2 with
  | Some opts => opts !! key
  | None => None
  end.

(** Modelled from the spec: the host's side of the plugin ABI (section 6,
    "the host is responsible for invoking the entry point with validated
    arguments matching the declared schema") is not part of this module.
    A string is accepted by a choice list when it is one of the choices; an
    integer by an ["INT"] declaration when it respects the declared [min]
    and [max]; an object by a declaration of its own type tag. *)
Definition accepts (d : Declaration) (v : Value) : bool :=
  match d.1, v with
  | Choices names, VStr s => bool_decide (s ∈ names)
  | Tag "INT", VInt z =>
      match option_of d "min" with Some (OInt lo) => (lo <=? z)%Z | _ => true end
      && match option_of d "max" with Some (OInt hi) => (z <=? hi)%Z | _ => true end
  | Tag name, VObject tag => negb (String.eqb name "INT") && String.eqb name tag
  | _, _ => false
  end.

Definition required (schema : Schema) (name : string) : option Declaration :=
  schema !! "required" ≫= (.!! name).

(** ** class LoadFilmModel *)

Module LoadFilmModel.
Section LoadFilmModel.
Context `{Delegate}.
(** [folder_paths.models_dir] and the filesystem below the root. *)
Variables (models_dir : Path) (root : Node).

Local Open Scope py_scope.

Definition INPUT_TYPES : Schema :=
  {[ "required" :=
       {[ "film_model" :=
            (Choices ["L1"; "Style"; "VGG"],
             Some {[ "default" := OStr "Style" ]}) ]} ]}.

Definition RETURN_TYPES : list string := ["FILM_MODEL"].
Definition FUNCTION : string := "load_model".
Definition CATEGORY : string := "mtb/frame iterpolation".

(** [get_models()].  [os.path.join(folder_paths.models_dir, "FILM/*")] is
    the pattern ["*"] in the directory [models_dir / "FILM"]. *)
Definition get_models : list Path :=
  let models := glob_star root (models_dir / "FILM")%path in
  Path_of_string
    <$> List.filter (fun x => endswith x ".onnx" || endswith x ".pth") models.

(** [load_model(self, film_model)].  The 1-tuple it returns is
    represented by its only component. *)
Definition load_model (film_model : string) : M Interpolator :=
  let model_path := (models_dir / "FILM" / film_model)%path in
  let model_path :=
    if negb (path_exists root (model_path / "saved_model.pb")%path)
    then (model_path / "saved_model")%path
    else model_path in
  (if negb (path_exists root model_path)
   then log ERROR (ModelDoesNotExist model_path) ;;
        raise (ValueError (ModelDoesNotExist model_path))
   else ret tt) ;;
  log INFO (LoadingModel model_path) ;;
  emit (InterpolatorInit (as_posix model_path)) ;;
  match Interpolator_init (as_posix model_path) with
  | inr model => ret model
  | inl exn => raise (DelegateInferenceError exn)
  end.
End LoadFilmModel.
End LoadFilmModel.

(** ** class FilmInterpolation *)

(** The frames a generator yields, in order. *)
Fixpoint produced {Y E} (g : Generator Y E) : list Y :=
  match g with
  | Yield frame rest => frame :: produced rest
  | StopIteration => []
  | Raise _ => []
  end.

(** The exception that ends a generator, if it does not return. *)
Fixpoint raised {Y E} (g : Generator Y E) : option E :=
  match g with
  | Yield _ rest => raised rest
  | StopIteration => None
  | Raise exn => Some exn
  end.

(** The generator that yields [frames] and then goes on as [rest]. *)
Fixpoint yields {Y E} (frames : list Y) (rest : Generator Y E) : Generator Y E :=
  match frames with
  | [] => rest
  | frame :: frames' => Yield frame (yields frames' rest)
  end.

Module FilmInterpolation.
Section FilmInterpolation.
Context `{Delegate}.
(** [tf.config.list_physical_devices("GPU")], and the host's interruption
    flag as it is found at the k-th poll of the call (counted from 0). *)
Variables (available_gpus : list Device) (interrupted : nat -> bool).

Local Open Scope py_scope.

Definition INPUT_TYPES : Schema :=
  {[ "required" :=
       {[ "images" := (Tag "IMAGE", None);
          "interpolate" :=
            (Tag "INT",
             Some {[ "default" := OInt 2; "min" := OInt 1; "max" := OInt 50 ]});
          "film_model" := (Tag "FILM_MODEL", None) ]} ]}.

Definition RETURN_TYPES : list string := ["IMAGE"].
Definition FUNCTION : string := "do_interpolation".
Definition CATEGORY : string := "mtb/frame iterpolation".

(** [model_management.throw_exception_if_processing_interrupted()] *)
Definition throw_exception_if_processing_interrupted : M unit :=
  fun s =>
    let s' := {| events := events s ++ [InterruptPoll];
                 polls := S (polls s);
                 out_tensors := out_tensors s |} in
    if interrupted (polls s)
    then (inl InterruptProcessingException, s')
    else (inr tt, s').

(** [out_tensors = []] *)
Definition new_out_tensors : M unit :=
  fun s => (inr tt, {| events := events s; polls := polls s; out_tensors := [] |}).

(** [out_tensors.append(t)] *)
Definition append (t : Tensor) : M unit :=
  fun s => (inr tt, {| events := events s;
                       polls := polls s;
                       out_tensors := out_tensors s ++ [t] |}).

Definition get_out_tensors : M (list Tensor) :=
  fun s => (inr (out_tensors s), s).

(** [torch.from_numpy(frame) if isinstance(frame, np.ndarray) else frame] *)
Definition to_tensor (frame : Frame) : Tensor :=
  match frame with
  | inl array => from_numpy array
  | inr tensor => tensor
  end.

(** [tens.unsqueeze(0)]: a batch of one image. *)
Definition unsqueeze0 (tens : Tensor) : Batch := [tens].

(** [torch.result_type]: the dtype the tensors promote to. *)
Definition result_type (t : Tensor) (ts : list Tensor) : DType :=
  foldl (fun d t' => promote_types d (dtype t')) (dtype t) ts.

(** [torch.cat(tensors, dim=0)]: refuses an empty list, and images of
    different shapes; the images it returns are cast to the dtype they
    promote to. *)
Definition torch_cat (tensors : list Batch) : M Batch :=
  match tensors with
  | [] => raise (TorchCatError EmptyList)
  | _ :: _ =>
      match concat tensors with
      | [] => ret []
      | t :: ts =>
          if forallb (fun t' => bool_decide (shape t' = shape t)) ts
          then ret (to_dtype (result_type t ts) <$> t :: ts)
          else raise (TorchCatError SizeMismatch)
      end
  end.

(** The [for frame in ...] loop, on what the generator does. *)
Fixpoint for_frames (g : Generator Frame DelegateError) : M unit :=
  match g with
  | StopIteration => ret tt
  | Raise exn => raise (DelegateInferenceError exn)
  | Yield frame rest =>
      emit (Next frame) ;;
      append (to_tensor frame) ;;
      throw_exception_if_processing_interrupted ;;
      emit (ProgressBarUpdate 1) ;;
      for_frames rest
  end.

(** [do_interpolation(self, images, interpolate, film_model)].  The
    1-tuple it returns is represented by its only component.
    [2 ** interpolate] is [2 ^ interpolate] on [Z] for the non-negative
    exponents the schema allows. *)
Definition do_interpolation
    (images : Batch) (interpolate : Z) (film_model : Interpolator) : M Batch :=
  let n := length images in
  if (n =? 0)%nat then ret images
  else
    (if (length available_gpus =? 0)%nat
     then log WARNING GpuNotAvailable
     else log DEBUG (GpuAvailable available_gpus)) ;;
    let num_frames := ((Z.of_nat n - 1) * (2 ^ interpolate - 1))%Z in
    log DEBUG (WillInterpolate num_frames) ;;
    let in_frames := omap (fun i => images !! i) (seq 0 n) in
    new_out_tensors ;;
    emit (ProgressBarInit num_frames) ;;
    emit (InterpolateRecursively in_frames interpolate film_model) ;;
    for_frames (interpolate_recursively_from_memory in_frames interpolate film_model) ;;
    tensors <- get_out_tensors ;;
    out <- torch_cat (unsqueeze0 <$> tensors) ;;
    log DEBUG (Returning (length out)) ;;
    log DEBUG (OutputShape out) ;;
    log DEBUG (OutputType out) ;;
    ret out.
End FilmInterpolation.
End FilmInterpolation.

(** ** The registered nodes *)

(** What the host reads off a node class. *)
Record Node_class : Type := {
  class_name : string;
  input_types : Schema;
  return_types : list string;
  function : string;
  category : string;
}.

(** [__nodes__ = [LoadFilmModel, FilmInterpolation]] *)
Definition __nodes__ : list Node_class :=
  [ {| class_name := "LoadFilmModel";
       input_types := LoadFilmModel.INPUT_TYPES;
       return_types := LoadFilmModel.RETURN_TYPES;
       function := LoadFilmModel.FUNCTION;
       category := LoadFilmModel.CATEGORY |};
    {| class_name := "FilmInterpolation";
       input_types := FilmInterpolation.INPUT_TYPES;
       return_types := FilmInterpolation.RETURN_TYPES;
       function := FilmInterpolation.FUNCTION;
       category := FilmInterpolation.CATEGORY |} ].

(** Whether some output of [source] may be linked to the input [input]
    of [target]. *)
Definition connectable (source target : Node_class) (input : string) : bool :=
  match required (input_types target) input with
  | Some d => existsb (fun tag => accepts d (VObject tag)) (return_types source)
  | None => false
  end.

(** ** Views of a run *)

(** The machine after [evs] more calls. *)
Definition record `{Delegate} (s : Machine) (evs : list Event) : Machine :=
  {| events := events s ++ evs; polls := polls s; out_tensors := out_tensors s |}.

(** The frames pulled from the delegate's generator, in order. *)
Definition yielded `{Delegate} (evs : list Event) : list Frame :=
  omap (fun ev => match ev with Next frame => Some frame | _ => None end) evs.

(** The arguments of the successive [pbar.update] calls. *)
Definition increments `{Delegate} (evs : list Event) : list Z :=
  omap (fun ev => match ev with ProgressBarUpdate v => Some v | _ => None end) evs.

(** The totals of the progress bars created. *)
Definition totals `{Delegate} (evs : list Event) : list Z :=
  omap (fun ev => match ev with ProgressBarInit total => Some total | _ => None end) evs.

(** The value of the progress counter: the sum of its increments. *)
Definition progress `{Delegate} (evs : list Event) : Z :=
  foldr Z.add 0%Z (increments evs).

(** Calls that concern the progress bar or pull a frame. *)
Definition is_progress `{Delegate} (ev : Event) : bool :=
  match ev with
  | Next _ | ProgressBarInit _ | ProgressBarUpdate _ => true
  | _ => false
  end.

(** Calls to the delegate: creating the generator, pulling a frame. *)
Definition is_delegate_call `{Delegate} (ev : Event) : bool :=
  match ev with
  | InterpolatorInit _ | InterpolateRecursively _ _ _ | Next _ => true
  | _ => false
  end.

(** What one completed iteration of the loop leaves in the trace. *)
Definition iteration `{Delegate} (frame : Frame) : list Event :=
  [Next frame; InterruptPoll; ProgressBarUpdate 1].

(** The log record the accelerator preflight leaves. *)
Definition preflight_record `{Delegate} (available_gpus : list Device) : Event :=
  if (length available_gpus =? 0)%nat
  then Log WARNING GpuNotAvailable
  else Log DEBUG (GpuAvailable available_gpus).

(** What [do_interpolation] does before it enters the loop. *)
Definition prelude `{Delegate} (available_gpus : list Device)
    (images : Batch) (interpolate : Z) (film_model : Interpolator) : list Event :=
  let total := ((Z.of_nat (length images) - 1) * (2 ^ interpolate - 1))%Z in
  [preflight_record available_gpus;
   Log DEBUG (WillInterpolate total);
   ProgressBarInit total;
   InterpolateRecursively images interpolate film_model].

(** The three log records that close a successful call. *)
Definition epilogue `{Delegate} (out : Batch) : list Event :=
  [Log DEBUG (Returning (length out));
   Log DEBUG (OutputShape out);
   Log DEBUG (OutputType out)].

(** The tensors [torch.cat] can stack: at least one, all of one shape. *)
Definition stackable `{Delegate} (tensors : list Tensor) : bool :=
  match tensors with
  | [] => false
  | t :: ts => forallb (fun t' => bool_decide (shape t' = shape t)) ts
  end.

(** What [torch.cat] makes of tensors it can stack: each is cast to the
    dtype they promote to. *)
Definition promoted `{Delegate} (tensors : list Tensor) : list Tensor :=
  match tensors with
  | [] => []
  | t :: ts => to_dtype (FilmInterpolation.result_type t ts) <$> tensors
  end.

(** Why [torch.cat] refuses tensors it cannot stack. *)
Definition cat_failure `{Delegate} (tensors : list Tensor) : Cat_failure :=
  match tensors with
  | [] => EmptyList
  | _ :: _ => SizeMismatch
  end.

(** ** A stub delegate and a small disk *)

Module Stub.

(** The frames between two images [a] and [b] are numbered [100 a + 1],
    [100 a + 2], ..., and there are [2 ^ times - 1] of them. *)
Definition between (times : Z) (pair : nat * nat) : list (nat + nat) :=
  (fun j => inl (100 * pair.1 + j)) <$> seq 1 (Z.to_nat (2 ^ times - 1)).

Definition delegate : Delegate :=
  {| ndarray := nat;
     Tensor := nat;
     Interpolator := unit;
     Device := string;
     DelegateError := string;
     DType := unit;
     from_numpy := fun a => a;
     shape := fun _ => [64; 64; 3];
     dtype := fun _ => tt;
     promote_types := fun _ _ => tt;
     to_dtype := fun _ t => t;
     to_dtype_same := fun _ => eq_refl;
     shape_to_dtype := fun _ _ => eq_refl;
     dtype_to_dtype := fun d _ => match d as u return tt = u with tt => eq_refl end;
     promote_types_same := fun d => match d as u return tt = u with tt => eq_refl end;
     Interpolator_init := fun _ => inr tt;
     interpolate_recursively_from_memory := fun frames times _ =>
       yields (zip frames (tail frames) ≫= between times) StopIteration |}.

Definition models_dir : Path := ["opt"; "ComfyUI"; "models"].

(** [Style] ships the marker at top level, [L1] under [saved_model], and
    [VGG] is not installed. *)
Definition disk : Node :=
  Dir [("opt", Dir [("ComfyUI", Dir [("models", Dir [("FILM", Dir
    [("Style", Dir [("saved_model.pb", File)]);
     ("L1", Dir [("saved_model", Dir [("saved_model.pb", File)])])])])])])].

(** Interruption flags: never raised, raised from the start, raised from
    the poll of index [k] on. *)
Definition never (j : nat) : bool := false.
Definition always (j : nat) : bool := true.
Definition raised_from (k j : nat) : bool := (k <=? j)%nat.

End Stub.

(** ** A delegate that fails, and two more disks *)

Module Faulty.

(** The generator yields an array and a tensor, then the library raises. *)
Definition delegate : Delegate :=
  {| ndarray := nat;
     Tensor := nat;
     Interpolator := unit;
     Device := string;
     DelegateError := string;
     DType := unit;
     from_numpy := fun a => a;
     shape := fun _ => [64; 64; 3];
     dtype := fun _ => tt;
     promote_types := fun _ _ => tt;
     to_dtype := fun _ t => t;
     to_dtype_same := fun _ => eq_refl;
     shape_to_dtype := fun _ _ => eq_refl;
     dtype_to_dtype := fun d _ => match d as u return tt = u with tt => eq_refl end;
     promote_types_same := fun d => match d as u return tt = u with tt => eq_refl end;
     Interpolator_init := fun _ => inl "not a saved model";
     interpolate_recursively_from_memory := fun _ _ _ =>
       Yield (inl 7) (Yield (inr 8) (Raise "resource exhausted")) |}.

End Faulty.

Module Mixed.

(** Images of one number, as 64-bit integers or as 32-bit floats. *)
Inductive scalar_type : Type := int64 | float32.

Definition scalar_type_eqb (d1 d2 : scalar_type) : bool :=
  match d1, d2 with
  | int64, int64 | float32, float32 => true
  | _, _ => false
  end.

(** The nearest 32-bit float, ties to even, of an integer below [2 ^ 25]
    in absolute value: exact up to [2 ^ 24], then the even integers. *)
Definition nearest_float32 (z : Z) : Z :=
  if (Z.abs z <=? 16777216)%Z then z
  else if Z.even z then z
  else (4 * ((z + 1) / 4))%Z.

Definition cast (d : scalar_type) (t : scalar_type * Z) : scalar_type * Z :=
  if scalar_type_eqb t.1 d then t
  else match d with
       | float32 => (float32, nearest_float32 t.2)
       | int64 => (int64, t.2)
       end.

(** The generator yields an integer array and a float tensor. *)
Definition delegate : Delegate :=
  {| ndarray := scalar_type * Z;
     Tensor := scalar_type * Z;
     Interpolator := unit;
     Device := string;
     DelegateError := string;
     DType := scalar_type;
     from_numpy := fun a => a;
     shape := fun _ => [1];
     dtype := fun t => t.1;
     promote_types := fun d1 d2 =>
       match d1, d2 with
       | int64, int64 => int64
       | _, _ => float32
       end;
     to_dtype := cast;
     Interpolator_init := fun _ => inr tt;
     interpolate_recursively_from_memory := fun _ _ _ =>
       Yield (inl (int64, 16777217%Z))
         (Yield (inr (float32, 1%Z)) StopIteration);
     to_dtype_same := fun t =>
       match t with
       | (int64, _) => eq_refl
       | (float32, _) => eq_refl
       end;
     shape_to_dtype := fun _ _ => eq_refl;
     dtype_to_dtype := fun d t =>
       match d, t with
       | int64, (int64, _) => eq_refl
       | int64, (float32, _) => eq_refl
       | float32, (int64, _) => eq_refl
       | float32, (float32, _) => eq_refl
       end;
     promote_types_same := fun d =>
       match d with
       | int64 => eq_refl
       | float32 => eq_refl
       end |}.

End Mixed.

Module Shelf.

(** A [FILM] directory holding two model files, a hidden one, a text file
    and the [Style] preset. *)
Definition disk : Node :=
  Dir [("opt", Dir [("ComfyUI", Dir [("models", Dir [("FILM", Dir
    [("film_net.onnx", File);
     ("film.pth", File);
     (".cache.pth", File);
     ("README.md", File);
     ("Style", Dir [("saved_model.pb", File)])])])])])].


(** The models directory has no [FILM] subdirectory. *)
Definition bare : Node :=
  Dir [("opt", Dir [("ComfyUI", Dir [("models", Dir [])])])].

End Shelf.

(** * Properties *)

(** ** The filesystem *)

Lemma stat_app root p q :
  stat root (p ++ q)%list = stat root p ≫= (fun node => stat node q).
Proof.
  revert root. induction p as [|name p IH]; intros root; simpl; [done|].
  destruct root as [| |entries]; [done..|].
  destruct (entry name entries); [apply IH|done].
Qed.

(** What exists below a directory lies in a directory that exists. *)
Lemma path_exists_parent root p name :
  path_exists root (p / name)%path = true -> path_exists root p = true.
Proof.
  unfold path_exists, joinpath. rewrite stat_app.
  destruct (stat root p) as [[| |entries]|]; simpl; [discriminate..|done|discriminate].
Qed.

Lemma joinpath_neq (p : Path) name : (p / name)%path <> p.
Proof.
  unfold joinpath. intros Heq.
  apply (f_equal length) in Heq. rewrite length_app in Heq. simpl in Heq. lia.
Qed.

(** ** The declared input schemas *)

Lemma film_model_declaration :
  required LoadFilmModel.INPUT_TYPES "film_model"
  = Some (Choices ["L1"; "Style"; "VGG"], Some {[ "default" := OStr "Style" ]}).
Proof. reflexivity. Qed.

Lemma interpolate_declaration :
  required FilmInterpolation.INPUT_TYPES "interpolate"
  = Some (Tag "INT",
          Some {[ "default" := OInt 2; "min" := OInt 1; "max" := OInt 50 ]}).
Proof. reflexivity. Qed.

(** C9: the loader's schema accepts for [film_model] exactly the three
    presets "L1", "Style" and "VGG", with "Style" as the default; the
    runner's schema accepts for [interpolate] exactly the integers from 1
    to 50.  Nothing else is accepted. *)
Theorem input_schemas_closed :
  (exists d,
      required LoadFilmModel.INPUT_TYPES "film_model" = Some d
      /\ (forall v, accepts d v = true
                    <-> v = VStr "L1" \/ v = VStr "Style" \/ v = VStr "VGG")
      /\ option_of d "default" = Some (OStr "Style")
      /\ accepts d (VStr "Style") = true)
  /\ (exists d,
      required FilmInterpolation.INPUT_TYPES "interpolate" = Some d
      /\ (forall v, accepts d v = true
                    <-> exists z, v = VInt z /\ (1 <= z <= 50)%Z)).
Proof.
  split.
  - eexists. split; [apply film_model_declaration|].
    split; [|split; reflexivity].
    intros v. unfold accepts. simpl. split.
    + destruct v as [name| |]; try discriminate.
      rewrite bool_decide_eq_true. rewrite !elem_of_cons, elem_of_nil.
      intros [-> | [-> | [-> | []]]]; auto.
    + intros [-> | [-> | ->]]; reflexivity.
  - eexists. split; [apply interpolate_declaration|].
    intros v. unfold accepts. cbn [fst].
    change (option_of _ "min") with (Some (OInt 1)).
    change (option_of _ "max") with (Some (OInt 50)).
    split.
    + destruct v as [name|z|tag]; try discriminate.
      rewrite andb_true_iff, !Z.leb_le. eauto.
    + intros (z & -> & Hz). rewrite andb_true_iff, !Z.leb_le. done.
Qed.

(** ** LoadFilmModel.load_model *)

Section LoadFilmModel_properties.
Context `{Delegate} (models_dir : Path) (root : Node).

(** [load_model] in one step: resolve, validate, log, instantiate. *)
Lemma load_model_unfold film_model s :
  let dir := (models_dir / "FILM" / film_model)%path in
  let resolved :=
    if path_exists root (dir / "saved_model.pb")%path
    then dir else (dir / "saved_model")%path in
  LoadFilmModel.load_model models_dir root film_model s =
    if path_exists root resolved
    then (match Interpolator_init (as_posix resolved) with
          | inr model => inr model
          | inl exn => inl (DelegateInferenceError exn)
          end,
          record s [Log INFO (LoadingModel resolved);
                    InterpolatorInit (as_posix resolved)])
    else (inl (ValueError (ModelDoesNotExist resolved)),
          record s [Log ERROR (ModelDoesNotExist resolved)]).
Proof.
  intros dir resolved. unfold LoadFilmModel.load_model.
  fold dir. unfold resolved.
  destruct (path_exists root (dir / "saved_model.pb")%path) eqn:Hmarker; simpl.
  - destruct (path_exists root dir) eqn:Hdir; simpl; [|reflexivity].
    unfold bind, log, emit, record; simpl.
    destruct (Interpolator_init (as_posix dir));
      simpl; rewrite <- app_assoc; reflexivity.
  - destruct (path_exists root (dir / "saved_model")%path) eqn:Hdir; simpl;
      [|reflexivity].
    unfold bind, log, emit, record; simpl.
    destruct (Interpolator_init (as_posix (dir / "saved_model")%path));
      simpl; rewrite <- app_assoc; reflexivity.
Qed.

(** C1: for each preset, when neither the model directory with its marker
    file nor the [saved_model] subdirectory exists, [load_model] logs the
    error and raises [ValueError]; and an exception leaving [load_model]
    is either this one, raised under exactly this condition, or one that
    the inference library raised while instantiating the model. *)
Theorem load_model_not_found film_model s :
  film_model ∈ ["L1"; "Style"; "VGG"] ->
  let dir := (models_dir / "FILM" / film_model)%path in
  let directory_with_marker :=
    path_exists root dir && path_exists root (dir / "saved_model.pb")%path in
  let fallback := path_exists root (dir / "saved_model")%path in
  (directory_with_marker = false -> fallback = false ->
   exists p,
     LoadFilmModel.load_model models_dir root film_model s
     = (inl (ValueError (ModelDoesNotExist p)),
        record s [Log ERROR (ModelDoesNotExist p)]))
  /\ (forall e s',
       LoadFilmModel.load_model models_dir root film_model s = (inl e, s') ->
       (exists p, e = ValueError (ModelDoesNotExist p)
                  /\ directory_with_marker = false /\ fallback = false)
       \/ (exists exn p, e = DelegateInferenceError exn
                         /\ Interpolator_init (as_posix p) = inl exn)).
Proof.
  intros _ dir with_marker fallback.
  pose proof (load_model_unfold film_model s) as Hload. simpl in Hload.
  fold dir in Hload. unfold with_marker, fallback.
  destruct (path_exists root (dir / "saved_model.pb")%path) eqn:Hmarker.
  - pose proof (path_exists_parent _ _ _ Hmarker) as Hdir.
    rewrite Hdir in Hload |- *. split; [discriminate|].
    intros e s'. rewrite Hload. intros [= He _]. right.
    destruct (Interpolator_init (as_posix dir)) as [exn|] eqn:Hinit;
      [|discriminate].
    injection He as <-. eauto.
  - rewrite andb_false_r. split.
    + intros _ Hfb. rewrite Hfb in Hload. eauto.
    + intros e s'. rewrite Hload.
      destruct (path_exists root (dir / "saved_model")%path) eqn:Hfb.
      * intros [= He _]. right.
        destruct (Interpolator_init (as_posix (dir / "saved_model")%path))
          as [exn|] eqn:Hinit; [|discriminate].
        injection He as <-. eauto.
      * intros [= <- _]. left. eauto.
Qed.

(** C7: for each preset the path is resolved from the candidate directory
    [models_dir / "FILM" / film_model]: it is the [saved_model]
    subdirectory exactly when the candidate has no [saved_model.pb], and
    the candidate itself otherwise.  When the resolved path exists, the
    trace is the log record of that path followed by the instantiation of
    the interpolator on it, and the result is what the instantiation
    gives; when it does not, only the error is logged. *)
Theorem load_model_resolution film_model s :
  film_model ∈ ["L1"; "Style"; "VGG"] ->
  let dir := (models_dir / "FILM" / film_model)%path in
  let marker := path_exists root (dir / "saved_model.pb")%path in
  exists resolved,
    (resolved = (dir / "saved_model")%path <-> marker = false)
    /\ (resolved = dir <-> marker = true)
    /\ (path_exists root resolved = true ->
        LoadFilmModel.load_model models_dir root film_model s
        = (match Interpolator_init (as_posix resolved) with
           | inr model => inr model
           | inl exn => inl (DelegateInferenceError exn)
           end,
           record s [Log INFO (LoadingModel resolved);
                     InterpolatorInit (as_posix resolved)]))
    /\ (path_exists root resolved = false ->
        LoadFilmModel.load_model models_dir root film_model s
        = (inl (ValueError (ModelDoesNotExist resolved)),
           record s [Log ERROR (ModelDoesNotExist resolved)])).
Proof.
  intros _ dir marker.
  pose proof (load_model_unfold film_model s) as Hload. simpl in Hload.
  fold dir marker in Hload.
  exists (if marker then dir else (dir / "saved_model")%path).
  repeat split.
  - destruct marker; [|done]. intros Heq. symmetry in Heq.
    by apply joinpath_neq in Heq.
  - by intros ->.
  - destruct marker; [done|]. intros Heq. by apply joinpath_neq in Heq.
  - by intros ->.
  - intros Hex. rewrite Hex in Hload. exact Hload.
  - intros Hex. rewrite Hex in Hload. exact Hload.
Qed.

End LoadFilmModel_properties.

(** ** FilmInterpolation.do_interpolation *)

Section FilmInterpolation_properties.
Context `{Delegate} (available_gpus : list Device) (interrupted : nat -> bool).

Notation for_frames := (FilmInterpolation.for_frames interrupted).
Notation do_interpolation :=
  (FilmInterpolation.do_interpolation available_gpus interrupted).
Notation to_tensor := FilmInterpolation.to_tensor.

(** [[images[i] for i in range(n)]] lists the images of the batch. *)
Lemma in_frames_from (before images : list Tensor) :
  omap (fun i => (before ++ images) !! i) (seq (length before) (length images))
  = images.
Proof.
  revert before. induction images as [|image images IH]; intros before; [done|].
  simpl. rewrite list_lookup_middle by done. f_equal.
  specialize (IH (before ++ [image])).
  rewrite length_app, Nat.add_1_r, <- app_assoc in IH. exact IH.
Qed.

Lemma in_frames_eq (images : list Tensor) :
  omap (fun i => images !! i) (seq 0 (length images)) = images.
Proof. exact (in_frames_from [] images). Qed.

Lemma concat_unsqueeze0 (tensors : list Tensor) :
  concat (FilmInterpolation.unsqueeze0 <$> tensors) = tensors.
Proof. induction tensors as [|t ts IH]; simpl; [done|]. by f_equal. Qed.

(** [torch.cat] of the unsqueezed tensors stacks them, when there is at
    least one and all have the shape of the first. *)
Lemma torch_cat_unsqueeze0 (tensors : list Tensor) s :
  FilmInterpolation.torch_cat (FilmInterpolation.unsqueeze0 <$> tensors) s
  = if stackable tensors
    then (inr (promoted tensors), s)
    else (inl (TorchCatError (cat_failure tensors)), s).
Proof.
  destruct tensors as [|t ts]; [done|].
  unfold FilmInterpolation.torch_cat.
  rewrite concat_unsqueeze0. simpl.
  by destruct (forallb _ ts).
Qed.

Lemma stackable_uniform (tensors : list Tensor) :
  tensors <> [] ->
  (forall t1 t2, t1 ∈ tensors -> t2 ∈ tensors -> shape t1 = shape t2) ->
  stackable tensors = true.
Proof.
  destruct tensors as [|t ts]; [done|]. intros _ Hshape. simpl.
  apply forallb_forall. intros t' Hin. apply bool_decide_eq_true.
  apply Hshape; [right; by apply list_elem_of_In|left].
Qed.

(** *** What [torch.cat] does to the tensors *)

Lemma length_promoted (tensors : list Tensor) :
  length (promoted tensors) = length tensors.
Proof. destruct tensors; [done|]. unfold promoted. by rewrite length_fmap. Qed.

Lemma promoted_lookup (t : Tensor) (ts : list Tensor) (i : nat) :
  promoted (t :: ts) !! i
  = to_dtype (FilmInterpolation.result_type t ts) <$> (t :: ts) !! i.
Proof. unfold promoted. by rewrite list_lookup_fmap. Qed.

(** The images keep their shapes. *)
Lemma promoted_shape (tensors : list Tensor) (t : Tensor) :
  t ∈ promoted tensors -> exists t', t' ∈ tensors /\ shape t = shape t'.
Proof.
  destruct tensors as [|t0 ts]; [by intros ?%elem_of_nil|].
  unfold promoted. intros (t' & -> & Hin)%list_elem_of_fmap.
  exists t'. by rewrite shape_to_dtype.
Qed.

(** The images all get the dtype they promote to. *)
Lemma promoted_dtype (t0 : Tensor) (ts : list Tensor) (t : Tensor) :
  t ∈ promoted (t0 :: ts) -> dtype t = FilmInterpolation.result_type t0 ts.
Proof.
  unfold promoted. intros (t' & -> & Hin)%list_elem_of_fmap.
  by rewrite dtype_to_dtype.
Qed.

Lemma result_type_uniform (t : Tensor) (ts : list Tensor) :
  (forall t', t' ∈ ts -> dtype t' = dtype t) ->
  FilmInterpolation.result_type t ts = dtype t.
Proof.
  unfold FilmInterpolation.result_type.
  induction ts as [|t' ts IH]; intros Hsame; [done|]. simpl.
  rewrite (Hsame t') by left. rewrite promote_types_same.
  apply IH. intros t'' Hin. apply Hsame. by right.
Qed.

(** Tensors of one dtype are left as they are. *)
Lemma promoted_uniform (tensors : list Tensor) :
  (forall t1 t2, t1 ∈ tensors -> t2 ∈ tensors -> dtype t1 = dtype t2) ->
  promoted tensors = tensors.
Proof.
  destruct tensors as [|t ts]; [done|]. intros Hsame. unfold promoted.
  rewrite result_type_uniform by (intros t' Hin; apply Hsame; [by right|left]).
  rewrite <- (list_fmap_id (t :: ts)) at 2.
  apply list_fmap_ext. intros i t' Hin%list_elem_of_lookup_2.
  rewrite <- (Hsame t' t) by (done || left). apply to_dtype_same.
Qed.

(** Every generator is its yields followed by its end. *)
Lemma generator_yields {Y E} (g : Generator Y E) :
  g = yields (produced g)
        (match raised g with Some exn => Raise exn | None => StopIteration end).
Proof. induction g as [frame rest IH| |exn]; simpl; [by rewrite <- IH|done..]. Qed.

(** The loop: [counted] are the frames whose iteration completed, [last]
    holds the frame at which the interruption was seen, if any. *)
Lemma for_frames_spec g s r s' :
  for_frames g s = (r, s') ->
  exists counted last,
    events s' = events s ++ (counted ≫= iteration)
                  ++ (last ≫= fun frame => [Next frame; InterruptPoll])
    /\ polls s' = polls s + length counted + length last
    /\ out_tensors s' = out_tensors s ++ (to_tensor <$> counted ++ last)
    /\ (forall j, j < length counted -> interrupted (polls s + j) = false)
    /\ match r with
       | inr _ => last = [] /\ counted = produced g /\ raised g = None
       | inl InterruptProcessingException =>
           exists frame, last = [frame]
             /\ produced g !! length counted = Some frame
             /\ take (length counted) (produced g) = counted
             /\ interrupted (polls s + length counted) = true
       | inl (DelegateInferenceError exn) =>
           last = [] /\ counted = produced g /\ raised g = Some exn
       | inl _ => False
       end.
Proof.
  revert s. induction g as [frame rest IH| |exn]; intros s; simpl.
  - unfold bind, emit, FilmInterpolation.append,
      FilmInterpolation.throw_exception_if_processing_interrupted; simpl.
    destruct (interrupted (polls s)) eqn:Hflag.
    + intros [= <- <-]. exists [], [frame]. simpl.
      rewrite <- app_assoc, Nat.add_0_r.
      repeat split; try done; try (intros; lia).
      exists frame. by rewrite Hflag.
    + intros Hrest. apply IH in Hrest as (counted & last & Hev & Hp & Ho & Hj & Hr).
      simpl in Hev, Hp, Ho, Hj. exists (frame :: counted), last.
      split; [|split; [|split; [|split]]].
      * rewrite Hev. simpl. by rewrite <- !app_assoc.
      * simpl. lia.
      * rewrite Ho. simpl. by rewrite <- app_assoc.
      * intros [|j] Hlt; [by rewrite Nat.add_0_r|].
        simpl in Hlt. rewrite <- Nat.add_succ_comm. apply Hj. lia.
      * destruct r as [[| | |]|]; simpl; try done.
        -- destruct Hr as (fr & -> & Hlook & Htake & Hint). exists fr.
           rewrite <- Nat.add_succ_comm. by rewrite Htake.
        -- by destruct Hr as (-> & -> & ->).
        -- by destruct Hr as (-> & -> & ->).
  - intros [= <- <-]. exists [], []. simpl.
    rewrite !app_nil_r, !Nat.add_0_r. repeat split; try done; intros; lia.
  - intros [= <- <-]. exists [], []. simpl.
    rewrite !app_nil_r, !Nat.add_0_r. repeat split; try done; intros; lia.
Qed.

(** The loop does not read the trace: it only extends it. *)
Lemma for_frames_events g s :
  for_frames g s =
    let run := for_frames g {| events := []; polls := polls s;
                               out_tensors := out_tensors s |} in
    (run.1, {| events := events s ++ events run.2;
               polls := polls run.2;
               out_tensors := out_tensors run.2 |}).
Proof.
  revert s. induction g as [frame rest IH| |exn]; intros s; simpl.
  - unfold bind, emit, FilmInterpolation.append,
      FilmInterpolation.throw_exception_if_processing_interrupted; simpl.
    destruct (interrupted (polls s)); simpl.
    + by rewrite <- !app_assoc.
    + rewrite IH. simpl. symmetry. rewrite IH. simpl.
      by rewrite <- !app_assoc.
  - unfold ret. simpl. rewrite app_nil_r. by destruct s.
  - unfold raise. simpl. rewrite app_nil_r. by destruct s.
Qed.

(** [do_interpolation] on a batch that is not empty: the prelude, the
    loop, and the stacking of what the loop collected. *)
Lemma do_interpolation_unfold images d film_model s :
  images <> [] ->
  do_interpolation images d film_model s =
    let start := {| events := events s ++ prelude available_gpus images d film_model;
                    polls := polls s;
                    out_tensors := [] |} in
    match for_frames (interpolate_recursively_from_memory images d film_model) start with
    | (inl e, s2) => (inl e, s2)
    | (inr _, s2) =>
        if stackable (out_tensors s2)
        then (inr (promoted (out_tensors s2)),
              record s2 (epilogue (promoted (out_tensors s2))))
        else (inl (TorchCatError (cat_failure (out_tensors s2))), s2)
    end.
Proof.
  intros Hne. unfold FilmInterpolation.do_interpolation.
  rewrite in_frames_eq.
  destruct (length images =? 0)%nat eqn:Hlen.
  { apply Nat.eqb_eq, length_zero_iff_nil in Hlen. done. }
  unfold prelude, preflight_record.
  set (g := interpolate_recursively_from_memory images d film_model).
  set (total := ((Z.of_nat (length images) - 1) * (2 ^ d - 1))%Z).
  assert (forall pre : Event,
    {| events := (((events s ++ [pre]) ++ [Log DEBUG (WillInterpolate total)])
                   ++ [ProgressBarInit total])
                   ++ [InterpolateRecursively images d film_model];
       polls := polls s; out_tensors := [] |}
    = {| events := events s ++ [pre; Log DEBUG (WillInterpolate total);
                                ProgressBarInit total;
                                InterpolateRecursively images d film_model];
         polls := polls s; out_tensors := [] |}) as Hstart.
  { intros pre. f_equal. by rewrite <- !app_assoc. }
  destruct (length available_gpus =? 0)%nat;
    unfold bind, log, emit, FilmInterpolation.new_out_tensors,
      FilmInterpolation.get_out_tensors; simpl;
    rewrite Hstart;
    (destruct (for_frames g _) as [[e|[]] s2]; [done|]);
    rewrite torch_cat_unsqueeze0;
    (destruct (stackable (out_tensors s2)); [|done]);
    unfold record, epilogue, ret; simpl; by rewrite <- !app_assoc.
Qed.

(** The whole call on a batch that is not empty, from the initial
    machine. *)
Lemma do_interpolation_spec images d film_model r s' :
  images <> [] ->
  do_interpolation images d film_model init = (r, s') ->
  let g := interpolate_recursively_from_memory images d film_model in
  exists counted last closing,
    events s' = prelude available_gpus images d film_model
                  ++ (counted ≫= iteration)
                  ++ (last ≫= fun frame => [Next frame; InterruptPoll])
                  ++ closing
    /\ (closing = [] \/ exists out, closing = epilogue out)
    /\ polls s' = length counted + length last
    /\ out_tensors s' = to_tensor <$> counted ++ last
    /\ (forall j, j < length counted -> interrupted j = false)
    /\ match r with
       | inr out =>
           closing = epilogue out /\ last = [] /\ counted = produced g
           /\ raised g = None /\ out = promoted (to_tensor <$> produced g)
           /\ stackable (to_tensor <$> produced g) = true
       | inl InterruptProcessingException =>
           closing = [] /\ exists frame, last = [frame]
             /\ produced g !! length counted = Some frame
             /\ take (length counted) (produced g) = counted
             /\ interrupted (length counted) = true
       | inl (DelegateInferenceError exn) =>
           closing = [] /\ last = [] /\ counted = produced g
           /\ raised g = Some exn
       | inl (TorchCatError cause) =>
           closing = [] /\ last = [] /\ counted = produced g
           /\ raised g = None
           /\ stackable (to_tensor <$> produced g) = false
           /\ cause = cat_failure (to_tensor <$> produced g)
       | inl (ValueError _) => False
       end.
Proof.
  intros Hne Hrun g. rewrite do_interpolation_unfold in Hrun by done.
  simpl in Hrun. fold g in Hrun.
  destruct (for_frames g _) as [r2 s2] eqn:Hloop.
  apply for_frames_spec in Hloop as (counted & last & Hev & Hp & Ho & Hj & Hr).
  simpl in Hev, Hp, Ho, Hj, Hr.
  destruct r2 as [e|[]].
  - injection Hrun as <- <-. exists counted, last, [].
    rewrite app_nil_r. repeat split; try done; [by left|].
    destruct e as [| | |exn]; done.
  - destruct Hr as (-> & -> & Hraised).
    rewrite app_nil_r in Ho. rewrite app_nil_r in Hev. rewrite Ho in Hrun.
    revert Hrun. destruct (stackable _) eqn:Hstack; intros [= <- <-].
    + exists (produced g), [],
        (epilogue (promoted (to_tensor <$> produced g))). simpl.
      rewrite Hev. rewrite app_nil_r. repeat split; try done. right; eauto.
    + exists (produced g), [], []. simpl.
      rewrite !app_nil_r. repeat split; try done. by left.
Qed.

(** *** The views on the pieces of a trace *)

Lemma yielded_app (evs1 evs2 : list Event) :
  yielded (evs1 ++ evs2) = yielded evs1 ++ yielded evs2.
Proof. apply omap_app. Qed.

Lemma increments_app (evs1 evs2 : list Event) :
  increments (evs1 ++ evs2) = increments evs1 ++ increments evs2.
Proof. apply omap_app. Qed.

Lemma totals_app (evs1 evs2 : list Event) :
  totals (evs1 ++ evs2) = totals evs1 ++ totals evs2.
Proof. apply omap_app. Qed.

Lemma yielded_iterations (frames : list Frame) :
  yielded (frames ≫= iteration) = frames.
Proof. induction frames as [|f fs IH]; simpl; [done|]. by f_equal. Qed.

Lemma yielded_cancelled (frames : list Frame) :
  yielded (frames ≫= fun frame => [Next frame; InterruptPoll]) = frames.
Proof. induction frames as [|f fs IH]; simpl; [done|]. by f_equal. Qed.

Lemma increments_iterations (frames : list Frame) :
  increments (frames ≫= iteration) = replicate (length frames) 1%Z.
Proof. induction frames as [|f fs IH]; simpl; [done|]. by f_equal. Qed.

Lemma increments_cancelled (frames : list Frame) :
  increments (frames ≫= fun frame => [Next frame; InterruptPoll]) = [].
Proof. induction frames as [|f fs IH]; simpl; done. Qed.

Lemma yielded_prelude images d film_model :
  yielded (prelude available_gpus images d film_model) = [].
Proof.
  unfold prelude, preflight_record.
  by destruct (length available_gpus =? 0)%nat.
Qed.

Lemma increments_prelude images d film_model :
  increments (prelude available_gpus images d film_model) = [].
Proof.
  unfold prelude, preflight_record.
  by destruct (length available_gpus =? 0)%nat.
Qed.

Lemma progress_replicate n : foldr Z.add 0%Z (replicate n 1%Z) = Z.of_nat n.
Proof. induction n as [|n IH]; [done|]. simpl replicate. simpl foldr. lia. Qed.

Lemma length_concat_uniform {A} (segments : list (list A)) (c : Z) :
  Forall (fun segment => Z.of_nat (length segment) = c) segments ->
  Z.of_nat (length (concat segments)) = (Z.of_nat (length segments) * c)%Z.
Proof.
  induction 1 as [|segment segments Hc _ IH]; simpl; [lia|].
  rewrite length_app. lia.
Qed.

Lemma progress_prelude images d film_model :
  List.filter is_progress (prelude available_gpus images d film_model)
  = [ProgressBarInit ((Z.of_nat (length images) - 1) * (2 ^ d - 1))%Z].
Proof.
  unfold prelude, preflight_record.
  by destruct (length available_gpus =? 0)%nat.
Qed.

Lemma totals_prelude images d film_model :
  totals (prelude available_gpus images d film_model)
  = [((Z.of_nat (length images) - 1) * (2 ^ d - 1))%Z].
Proof.
  unfold prelude, preflight_record.
  by destruct (length available_gpus =? 0)%nat.
Qed.

Lemma progress_iterations (frames : list Frame) :
  List.filter is_progress (frames ≫= iteration)
  = frames ≫= fun frame => [Next frame; ProgressBarUpdate 1].
Proof. induction frames as [|f fs IH]; simpl; [done|]. by do 2 f_equal. Qed.

Lemma progress_cancelled (frames : list Frame) :
  List.filter is_progress (frames ≫= fun frame => [Next frame; InterruptPoll])
  = Next <$> frames.
Proof. induction frames as [|f fs IH]; simpl; [done|]. by f_equal. Qed.

Lemma totals_iterations (frames : list Frame) :
  totals (frames ≫= iteration) = [].
Proof. induction frames as [|f fs IH]; simpl; done. Qed.

Lemma totals_cancelled (frames : list Frame) :
  totals (frames ≫= fun frame => [Next frame; InterruptPoll]) = [].
Proof. induction frames as [|f fs IH]; simpl; done. Qed.

(** The closing log records are invisible to every view. *)
Lemma closing_views (closing : list Event) :
  closing = [] \/ (exists out, closing = epilogue out) ->
  yielded closing = [] /\ increments closing = [] /\ totals closing = []
  /\ List.filter is_progress closing = [].
Proof. by intros [->|[out ->]]. Qed.

(** The first poll that finds the flag raised is the only position at
    which all earlier polls found it down. *)
Lemma first_raised_unique (i j : nat) :
  (forall n, n < i -> interrupted n = false) -> interrupted i = true ->
  (forall n, n < j -> interrupted n = false) -> interrupted j = true ->
  i = j.
Proof.
  intros Hi Hti Hj Htj.
  destruct (Nat.lt_trichotomy i j) as [Hlt|[Heq|Hgt]]; [|done|].
  - apply Hj in Hlt. congruence.
  - apply Hi in Hgt. congruence.
Qed.

(** A call during which the flag is first found raised at the poll that
    follows the [k]-th frame. *)
Lemma do_interpolation_interrupted images d film_model k :
  images <> [] ->
  let g := interpolate_recursively_from_memory images d film_model in
  1 <= k <= length (produced g) ->
  (forall j, j < k - 1 -> interrupted j = false) ->
  interrupted (k - 1) = true ->
  exists s' frame,
    do_interpolation images d film_model init
    = (inl InterruptProcessingException, s')
    /\ produced g !! (k - 1) = Some frame
    /\ events s' = prelude available_gpus images d film_model
                    ++ (take (k - 1) (produced g) ≫= iteration)
                    ++ [Next frame; InterruptPoll]
    /\ polls s' = k
    /\ out_tensors s' = to_tensor <$> take k (produced g).
Proof.
  intros Hne g Hk Hdown Hup.
  destruct (do_interpolation images d film_model init) as [r s'] eqn:Hrun.
  apply do_interpolation_spec in Hrun
    as (counted & last & closing & Hev & _ & Hp & Ho & Hj & Hr); [|done].
  fold g in Hr.
  assert (forall exn : Exception, counted = produced g -> exists fr : Frame,
            r = inl exn /\ False) as Habsurd.
  { intros exn ->. assert (k - 1 < length (produced g)) as Hlt by lia.
    apply Hj in Hlt. congruence. }
  destruct r as [[msg| | |exn]|out].
  - done.
  - destruct Hr as (-> & frame & -> & Hlook & Htake & Hflag).
    assert (length counted = k - 1) as Hlen
      by (by apply first_raised_unique).
    rewrite Hlen in Hlook, Htake. exists s', frame.
    repeat split; try done.
    + by rewrite Hev, Htake.
    + rewrite Hp, Hlen. simpl. lia.
    + rewrite Ho. f_equal.
      replace k with (S (k - 1)) by lia.
      erewrite take_S_r by exact Hlook.
      replace (S (k - 1) - 1) with (k - 1) by lia. by rewrite Htake.
  - destruct Hr as (_ & _ & Hall & _).
    by destruct (Habsurd InterruptProcessingException Hall) as (_ & _ & []).
  - destruct Hr as (_ & _ & Hall & _).
    by destruct (Habsurd InterruptProcessingException Hall) as (_ & _ & []).
  - destruct Hr as (_ & _ & Hall & _).
    by destruct (Habsurd InterruptProcessingException Hall) as (_ & _ & []).
Qed.

(** *** The claims *)

(** C3: on an empty batch [do_interpolation] returns the batch it was
    given and leaves the machine as it found it; from the initial machine
    the trace stays empty, so the delegate is neither called nor asked for
    a frame, the progress bar is neither created nor incremented, and the
    interruption flag is not read. *)
Theorem do_interpolation_empty d film_model s :
  do_interpolation [] d film_model s = (inr [], s)
  /\ (let s' := (do_interpolation [] d film_model init).2 in
      events s' = []
      /\ List.filter is_delegate_call (events s') = []
      /\ totals (events s') = []
      /\ increments (events s') = []
      /\ polls s' = 0).
Proof. split; [reflexivity|]. simpl. repeat split. Qed.

(** C2: for a batch of [n >= 2] images and a depth [d] from 1 to 50, if
    the delegate returns normally after yielding [2 ^ d - 1] frames for
    each of the [n - 1] adjacent pairs, then every batch that
    [do_interpolation] returns has exactly [(n - 1) * (2 ^ d - 1)] images:
    the frames the delegate yielded, in order and converted, as
    [torch.cat] stacks them (unchanged when they have one dtype), and
    nothing else (no image of the input is put back).  And it does return
    a batch when the call is not interrupted and the frames have one
    shape. *)
Theorem do_interpolation_length images d film_model segments :
  2 <= length images ->
  (1 <= d <= 50)%Z ->
  let g := interpolate_recursively_from_memory images d film_model in
  raised g = None ->
  produced g = concat segments ->
  length segments = length images - 1 ->
  Forall (fun segment => Z.of_nat (length segment) = (2 ^ d - 1)%Z) segments ->
  (forall out s',
      do_interpolation images d film_model init = (inr out, s') ->
      Z.of_nat (length out)
      = ((Z.of_nat (length images) - 1) * (2 ^ d - 1))%Z
      /\ out = promoted (to_tensor <$> produced g)
      /\ ((forall t1 t2, t1 ∈ to_tensor <$> produced g ->
                         t2 ∈ to_tensor <$> produced g -> dtype t1 = dtype t2) ->
          out = to_tensor <$> produced g)
      /\ yielded (events s') = produced g)
  /\ ((forall j, j < length (produced g) -> interrupted j = false) ->
      (forall t1 t2, t1 ∈ to_tensor <$> produced g ->
                     t2 ∈ to_tensor <$> produced g -> shape t1 = shape t2) ->
      exists out s',
        do_interpolation images d film_model init = (inr out, s')).
Proof.
  intros Hn Hd g Hret Hsegs Hpairs Heach.
  assert (images <> []) as Hne by (intros ->; simpl in Hn; lia).
  assert (Z.of_nat (length (produced g))
          = ((Z.of_nat (length images) - 1) * (2 ^ d - 1))%Z) as Hlen.
  { rewrite Hsegs, (length_concat_uniform _ _ Heach), Hpairs. f_equal. lia. }
  split.
  - intros out s' Hrun.
    apply do_interpolation_spec in Hrun
      as (counted & last & closing & Hev & _ & _ & _ & _ & Hr); [|done].
    fold g in Hr. destruct Hr as (-> & -> & -> & _ & -> & _).
    split; [|split; [done|split]].
    + by rewrite length_promoted, length_fmap.
    + apply promoted_uniform.
    + rewrite Hev, !yielded_app, yielded_prelude, yielded_iterations.
      simpl. by rewrite app_nil_r.
  - intros Hquiet Hshape.
    assert (1 <= 2 ^ d - 1)%Z as Hpow.
    { pose proof (Z.pow_le_mono_r 2 1 d) as Hmono. lia. }
    assert (produced g <> []) as Hsome.
    { intros Hnil. rewrite Hnil in Hlen. simpl in Hlen. nia. }
    destruct (do_interpolation images d film_model init) as [r s'] eqn:Hrun.
    apply do_interpolation_spec in Hrun
      as (counted & last & closing & _ & _ & _ & _ & _ & Hr); [|done].
    fold g in Hr.
    destruct r as [[msg| | |exn]|out].
    + done.
    + destruct Hr as (_ & frame & _ & Hlook & _ & Hflag).
      apply lookup_lt_Some in Hlook. rewrite Hquiet in Hflag by done.
      discriminate.
    + destruct Hr as (_ & _ & _ & _ & Hstack & _).
      rewrite stackable_uniform in Hstack; [discriminate| |done].
      intros Hnil. by apply fmap_nil_inv in Hnil.
    + destruct Hr as (_ & _ & _ & Hraised). congruence.
    + by exists out, s'.
Qed.

(** C4: if the flag is first found raised at the poll that follows the
    [k]-th frame the delegate yields, [do_interpolation] raises
    [InterruptProcessingException]: no batch is returned, although the
    machine had by then collected the first [k] frames in
    [out_tensors].  (The batch is not empty: on an empty batch the
    delegate is not called and yields nothing.) *)
Theorem do_interpolation_cancelled images d film_model k :
  images <> [] ->
  let g := interpolate_recursively_from_memory images d film_model in
  1 <= k <= length (produced g) ->
  (forall j, j < k - 1 -> interrupted j = false) ->
  interrupted (k - 1) = true ->
  exists s',
    do_interpolation images d film_model init
    = (inl InterruptProcessingException, s')
    /\ out_tensors s' = to_tensor <$> take k (produced g)
    /\ (forall out s'',
          do_interpolation images d film_model init <> (inr out, s'')).
Proof.
  intros Hne g Hk Hdown Hup.
  destruct (do_interpolation_interrupted images d film_model k)
    as (s' & frame & Hrun & _ & _ & _ & Hout); try done.
  exists s'. repeat split; [done..|].
  intros out s''. by rewrite Hrun.
Qed.

(** C8: in such a call the progress bar has been incremented [k - 1]
    times when the exception leaves: the trace ends with the [k]-th frame
    and the poll that found the flag raised, [k] frames have been pulled
    and appended, and no increment follows. *)
Theorem progress_at_cancellation images d film_model k :
  images <> [] ->
  let g := interpolate_recursively_from_memory images d film_model in
  1 <= k <= length (produced g) ->
  (forall j, j < k - 1 -> interrupted j = false) ->
  interrupted (k - 1) = true ->
  exists s' before frame,
    do_interpolation images d film_model init
    = (inl InterruptProcessingException, s')
    /\ produced g !! (k - 1) = Some frame
    /\ events s' = before ++ [Next frame; InterruptPoll]
    /\ yielded (events s') = take k (produced g)
    /\ length (out_tensors s') = k
    /\ increments (events s') = replicate (k - 1) 1%Z
    /\ progress (events s') = Z.of_nat (k - 1).
Proof.
  intros Hne g Hk Hdown Hup.
  destruct (do_interpolation_interrupted images d film_model k)
    as (s' & frame & Hrun & Hlook & Hev & _ & Hout); try done.
  fold g in Hlook, Hev, Hout.
  assert (length (take (k - 1) (produced g)) = k - 1) as Hlen
    by (rewrite length_take; lia).
  assert (increments (events s') = replicate (k - 1) 1%Z) as Hinc.
  { rewrite Hev, !increments_app, increments_prelude, increments_iterations.
    simpl. by rewrite app_nil_r, Hlen. }
  exists s', (prelude available_gpus images d film_model
                ++ (take (k - 1) (produced g) ≫= iteration)), frame.
  split; [done|]. split; [done|]. split; [by rewrite Hev, app_assoc|].
  repeat split; try done.
  - rewrite Hev, !yielded_app, yielded_prelude, yielded_iterations. simpl.
    replace k with (S (k - 1)) at 2 by lia. by erewrite take_S_r.
  - rewrite Hout, length_fmap, length_take. lia.
  - unfold progress. by rewrite Hinc, progress_replicate.
Qed.

(** C5, as the code has it: on a batch that is not empty the progress bar
    is created once, with total [(n - 1) * (2 ^ d - 1)], before any frame
    is pulled; each frame pulled is followed by one increment of exactly
    one, in yield order, except the frame at which the flag is found
    raised, which is not counted; and when the call returns, the counter
    equals the number of frames the delegate produced, which is the length
    of the returned batch. *)
Theorem progress_counts_completed_iterations images d film_model r s' :
  images <> [] ->
  (0 <= d)%Z ->
  do_interpolation images d film_model init = (r, s') ->
  let g := interpolate_recursively_from_memory images d film_model in
  let total := ((Z.of_nat (length images) - 1) * (2 ^ d - 1))%Z in
  exists counted last,
    List.filter is_progress (events s')
    = ProgressBarInit total
        :: (counted ≫= fun frame => [Next frame; ProgressBarUpdate 1])
        ++ (Next <$> last)
    /\ counted ++ last `prefix_of` produced g
    /\ (forall j, j < length counted -> interrupted j = false)
    /\ match r with
       | inl InterruptProcessingException =>
           length last = 1 /\ interrupted (length counted) = true
       | _ => last = [] /\ counted = produced g
       end
    /\ totals (events s') = [total]
    /\ increments (events s') = replicate (length counted) 1%Z
    /\ progress (events s') = Z.of_nat (length counted)
    /\ (forall out, r = inr out ->
          progress (events s') = Z.of_nat (length (produced g))
          /\ length out = length (produced g)).
Proof.
  intros Hne _ Hrun g total.
  apply do_interpolation_spec in Hrun
    as (counted & last & closing & Hev & Hclosing & Hp & Ho & Hj & Hr); [|done].
  fold g in Hr.
  destruct (closing_views _ Hclosing) as (Hcy & Hci & Hct & Hcp).
  assert (increments (events s') = replicate (length counted) 1%Z) as Hinc.
  { rewrite Hev, !increments_app, increments_prelude, increments_iterations,
      increments_cancelled, Hci. simpl. by rewrite app_nil_r. }
  assert (progress (events s') = Z.of_nat (length counted)) as Hprog.
  { unfold progress. by rewrite Hinc, progress_replicate. }
  exists counted, last.
  split; [|split; [|split; [done|split; [|split; [|split; [done|split; [done|]]]]]]].
  - rewrite Hev, !List.filter_app, progress_prelude, progress_iterations,
      progress_cancelled, Hcp. simpl. by rewrite app_nil_r.
  - destruct r as [[msg| | |exn]|out].
    + done.
    + destruct Hr as (_ & frame & -> & Hlook & Htake & _).
      rewrite <- Htake, <- (take_S_r _ _ _ Hlook).
      exists (drop (S (length counted)) (produced g)).
      by rewrite take_drop.
    + destruct Hr as (_ & -> & -> & _). by rewrite app_nil_r.
    + destruct Hr as (_ & -> & -> & _). by rewrite app_nil_r.
    + destruct Hr as (_ & -> & -> & _). by rewrite app_nil_r.
  - destruct r as [[msg| | |exn]|out].
    + done.
    + by destruct Hr as (_ & frame & -> & _ & _ & ?).
    + by destruct Hr as (_ & -> & -> & _).
    + by destruct Hr as (_ & -> & -> & _).
    + by destruct Hr as (_ & -> & -> & _).
  - rewrite Hev, !totals_app, totals_prelude, totals_iterations,
      totals_cancelled, Hct. done.
  - intros out ->. destruct Hr as (_ & _ & -> & _ & -> & _).
    split; [done|]. by rewrite length_promoted, length_fmap.
Qed.

(** C6, as the code has it: when [do_interpolation] returns, the batch it
    returns has one image for each frame pulled from the delegate during
    the call, in the order the frames were pulled: the image of index [i]
    is the frame of index [i], converted by [to_tensor] and cast by
    [torch.cat] to the dtype the frames promote to, which all the images
    of the batch then have.  When the frames have one dtype the cast
    changes nothing and the image is the converted frame itself. *)
Theorem output_order images d film_model out s' :
  do_interpolation images d film_model init = (inr out, s') ->
  let frames := to_tensor <$> yielded (events s') in
  out = promoted frames
  /\ length out = length (yielded (events s'))
  /\ (forall t ts, frames = t :: ts ->
      (forall i, out !! i
                 = to_dtype (FilmInterpolation.result_type t ts) <$> frames !! i)
      /\ (forall t', t' ∈ out ->
                     dtype t' = FilmInterpolation.result_type t ts))
  /\ ((forall t1 t2, t1 ∈ frames -> t2 ∈ frames -> dtype t1 = dtype t2) ->
      out = frames
      /\ forall i, out !! i = to_tensor <$> (yielded (events s') !! i))
  /\ (images <> [] ->
      yielded (events s')
      = produced (interpolate_recursively_from_memory images d film_model)).
Proof.
  intros Hrun frames.
  assert (out = promoted frames
          /\ (images <> [] ->
              yielded (events s')
              = produced (interpolate_recursively_from_memory images d film_model)))
    as [Hout Hall].
  { unfold frames. destruct images as [|image images].
    - injection Hrun as <- <-. done.
    - apply do_interpolation_spec in Hrun
        as (counted & last & closing & Hev & Hclosing & _ & _ & _ & Hr);
        [|done].
      destruct Hr as (-> & -> & -> & _ & -> & _).
      rewrite Hev, !yielded_app, yielded_prelude, yielded_iterations.
      simpl. by rewrite app_nil_r. }
  split; [done|]. split; [|split; [|split; [|done]]].
  - rewrite Hout, length_promoted. unfold frames. by rewrite length_fmap.
  - intros t ts Hframes. rewrite Hout, Hframes. split.
    + intros i. apply promoted_lookup.
    + intros t'. apply promoted_dtype.
  - intros Hsame. rewrite Hout, promoted_uniform by done. split; [done|].
    intros i. unfold frames. by rewrite list_lookup_fmap.
Qed.

End FilmInterpolation_properties.

(** ** The accelerator preflight *)

Section Preflight.
Context `{Delegate} (interrupted : nat -> bool).

Lemma preflight_record_is_log (available_gpus : list Device) :
  preflight_record available_gpus = Log WARNING GpuNotAvailable
  \/ preflight_record available_gpus = Log DEBUG (GpuAvailable available_gpus).
Proof.
  unfold preflight_record. destruct (length available_gpus =? 0)%nat; auto.
Qed.

(** The call on a batch that is not empty, with the part of the trace
    that depends on the detected devices set apart. *)
Lemma do_interpolation_frame available_gpus images d film_model s :
  images <> [] ->
  let run := FilmInterpolation.for_frames interrupted
               (interpolate_recursively_from_memory images d film_model)
               {| events := []; polls := polls s; out_tensors := [] |} in
  let total := ((Z.of_nat (length images) - 1) * (2 ^ d - 1))%Z in
  let after := [Log DEBUG (WillInterpolate total); ProgressBarInit total;
                InterpolateRecursively images d film_model] ++ events run.2 in
  let machine closing :=
    {| events := events s ++ [preflight_record available_gpus] ++ after ++ closing;
       polls := polls run.2;
       out_tensors := out_tensors run.2 |} in
  FilmInterpolation.do_interpolation available_gpus interrupted images d film_model s
  = match run.1 with
    | inl e => (inl e, machine [])
    | inr _ =>
        if stackable (out_tensors run.2)
        then (inr (promoted (out_tensors run.2)),
              machine (epilogue (promoted (out_tensors run.2))))
        else (inl (TorchCatError (cat_failure (out_tensors run.2))), machine [])
    end.
Proof.
  intros Hne run total after machine.
  rewrite do_interpolation_unfold by done. simpl.
  rewrite for_frames_events. simpl. fold run.
  unfold machine, after, prelude. fold total.
  destruct run as [[e|[]] s0]; simpl.
  - by rewrite app_nil_r, <- !app_assoc.
  - destruct (stackable (out_tensors s0)); unfold record; simpl.
    + by rewrite <- !app_assoc.
    + by rewrite app_nil_r, <- !app_assoc.
Qed.

(** C10: two calls that differ only in the devices detected give the same
    result, whether a batch or an exception, poll the flag as often and
    collect the same tensors; their traces are equal except, on a batch
    that is not empty, for the one log record of the preflight, a warning
    in one case and a debug record in the other. *)
Theorem gpu_preflight_noninterference gpus1 gpus2 images d film_model s :
  let run1 := FilmInterpolation.do_interpolation
                gpus1 interrupted images d film_model s in
  let run2 := FilmInterpolation.do_interpolation
                gpus2 interrupted images d film_model s in
  let record_of gpus :=
    if (length images =? 0)%nat then [] else [preflight_record gpus] in
  run1.1 = run2.1
  /\ polls run1.2 = polls run2.2
  /\ out_tensors run1.2 = out_tensors run2.2
  /\ (exists before after,
        events run1.2 = before ++ record_of gpus1 ++ after
        /\ events run2.2 = before ++ record_of gpus2 ++ after)
  /\ (forall gpus,
        preflight_record gpus = Log WARNING GpuNotAvailable
        \/ preflight_record gpus = Log DEBUG (GpuAvailable gpus)).
Proof.
  intros run1 run2 record_of.
  assert (run1.1 = run2.1 /\ polls run1.2 = polls run2.2
          /\ out_tensors run1.2 = out_tensors run2.2
          /\ exists before after,
               events run1.2 = before ++ record_of gpus1 ++ after
               /\ events run2.2 = before ++ record_of gpus2 ++ after) as Hsame.
  { unfold run1, run2, record_of. destruct images as [|image images].
    - simpl. repeat split. exists (events s), []. by rewrite app_nil_r.
    - rewrite !do_interpolation_frame by done.
      set (run := FilmInterpolation.for_frames interrupted _ _).
      simpl length. simpl Nat.eqb. cbv iota.
      destruct run as [[e|[]] s0]; simpl.
      + repeat split. by eexists _, _.
      + destruct (stackable (out_tensors s0)); simpl;
          repeat split; by eexists _, _. }
  destruct Hsame as (? & ? & ? & ?).
  repeat split; try done. apply preflight_record_is_log.
Qed.

End Preflight.

(** ** Paths as strings *)

Lemma append_cons c (s t : string) : String c s +:+ t = String c (s +:+ t).
Proof. reflexivity. Qed.

Lemma string_app_assoc (a b c : string) : (a +:+ b) +:+ c = a +:+ b +:+ c.
Proof. induction a as [|x a IH]; [done|]. rewrite !append_cons. by f_equal. Qed.

Lemma endswith_cons c (s suffix : string) :
  endswith (String c s) suffix
  = (String c s =? suffix)%string || endswith s suffix.
Proof. reflexivity. Qed.

Lemma occurs_append c (a b : string) : occurs c (a +:+ String c b) = true.
Proof.
  induction a as [|x a IH].
  - change (Ascii.eqb c c || occurs c b = true).
    by rewrite Ascii.eqb_refl.
  - rewrite append_cons. simpl. rewrite IH. apply orb_true_r.
Qed.

(** A string in which [c] occurs is not one in which it does not. *)
Lemma eqb_occurs c (s t : string) :
  occurs c s = true -> occurs c t = false -> (s =? t)%string = false.
Proof. intros Hs Ht. apply String.eqb_neq. intros ->. congruence. Qed.

Lemma endswith_after_slash (before name suffix : string) :
  occurs "/" suffix = false ->
  endswith (before +:+ String "/" name) suffix = endswith name suffix.
Proof.
  intros Hsuffix. induction before as [|c before IH].
  - change ("" +:+ String "/" name) with (String "/"%char name).
    rewrite endswith_cons, (eqb_occurs "/"); [done| |done].
    apply (occurs_append "/" "").
  - rewrite append_cons, endswith_cons, IH, (eqb_occurs "/"); [done| |done].
    apply (occurs_append "/" (String c before)).
Qed.

Lemma concat_snoc (p : list string) (name : string) :
  String.concat "/" (p ++ [name])
  = match p with
    | [] => name
    | _ :: _ => String.concat "/" p +:+ "/" +:+ name
    end.
Proof.
  induction p as [|x p IH]; [done|].
  destruct p as [|y p]; [done|].
  change (String.concat "/" ((x :: y :: p) ++ [name]))
    with (x +:+ "/" +:+ String.concat "/" ((y :: p) ++ [name])).
  rewrite IH.
  change (String.concat "/" (x :: y :: p))
    with (x +:+ "/" +:+ String.concat "/" (y :: p)).
  by rewrite !string_app_assoc.
Qed.

(** The string of a path ends with a slash and its last component. *)
Lemma as_posix_joinpath (p : Path) (name : string) :
  as_posix (p / name)%path
  = match p with [] => "" | _ :: _ => as_posix p end +:+ String "/" name.
Proof.
  unfold as_posix, joinpath. rewrite concat_snoc.
  destruct p as [|x p]; [done|]. by rewrite string_app_assoc.
Qed.

(** X2: the test [get_models] makes on the string of a path,
    [x.endswith(".onnx") or x.endswith(".pth")], is the same test on the
    last component of the path: the directories above cannot make it
    succeed, even for a name shorter than the suffix. *)
Theorem endswith_as_posix (p : Path) (name : string) :
  endswith (as_posix (p / name)%path) ".onnx"
  || endswith (as_posix (p / name)%path) ".pth"
  = endswith name ".onnx" || endswith name ".pth".
Proof.
  rewrite as_posix_joinpath.
  rewrite (endswith_after_slash _ name ".onnx") by reflexivity.
  by rewrite (endswith_after_slash _ name ".pth") by reflexivity.
Qed.

Lemma split_slash_cons c (s : string) :
  split_slash (String c s)
  = if Ascii.eqb c "/"
    then "" :: split_slash s
    else match split_slash s with
         | part :: parts => String c part :: parts
         | [] => [String c ""]
         end.
Proof. reflexivity. Qed.

Lemma split_slash_name (name : string) :
  occurs "/" name = false -> split_slash name = [name].
Proof.
  induction name as [|c name IH]; [done|]. simpl occurs.
  intros [Hc Hname]%orb_false_elim.
  rewrite split_slash_cons, Hc, IH; done.
Qed.

Lemma split_slash_cut (name rest : string) :
  occurs "/" name = false ->
  split_slash (name +:+ String "/" rest) = name :: split_slash rest.
Proof.
  induction name as [|c name IH].
  - intros _. change ("" +:+ String "/" rest) with (String "/"%char rest).
    by rewrite split_slash_cons.
  - simpl occurs. intros [Hc Hname]%orb_false_elim.
    rewrite append_cons, split_slash_cons, Hc, IH; done.
Qed.

Lemma split_slash_concat (p : list string) :
  Forall (fun name => occurs "/" name = false) p ->
  p <> [] ->
  split_slash (String.concat "/" p) = p.
Proof.
  induction 1 as [|x p Hx Hp IH]; [done|]. intros _.
  destruct p as [|y p]; [by apply split_slash_name|].
  change (String.concat "/" (x :: y :: p))
    with (x +:+ String "/" (String.concat "/" (y :: p))).
  rewrite split_slash_cut by done. f_equal. by apply IH.
Qed.

Lemma is_name_true (name : string) :
  is_name name = true ->
  (name =? "")%string = false /\ (name =? ".")%string = false
  /\ (name =? "..")%string = false /\ occurs "/" name = false.
Proof.
  unfold is_name. rewrite !andb_true_iff, !negb_true_iff. tauto.
Qed.

Lemma Path_of_string_names (p : Path) :
  Forall (fun name => is_name name = true) p ->
  Path_of_string (as_posix p) = p.
Proof.
  intros Hnames. unfold Path_of_string, as_posix.
  change ("/" +:+ String.concat "/" p)
    with (String "/"%char (String.concat "/" p)).
  rewrite split_slash_cons. simpl (Ascii.eqb _ _). cbv iota.
  change (List.filter ?f ("" :: ?l)) with (List.filter f l).
  destruct p as [|x p]; [done|].
  rewrite split_slash_concat; [|by eapply Forall_impl;
    [exact Hnames|intros name Hn; apply is_name_true in Hn; tauto]|done].
  induction Hnames as [|y q Hy Hq IH]; [done|].
  apply is_name_true in Hy as (He & Hd & _ & _).
  simpl. rewrite He, Hd. simpl. by f_equal.
Qed.

(** X3: round trip: the string [load_model] hands to the library,
    [model_path.as_posix()], read back as [get_models] reads the strings
    of [glob], [Path(x)], is the path itself; so two paths with the same
    string are the same path. *)
Theorem Path_of_string_as_posix (p q : Path) :
  Forall (fun name => is_name name = true) p ->
  Forall (fun name => is_name name = true) q ->
  Path_of_string (as_posix p) = p
  /\ (as_posix p = as_posix q -> p = q).
Proof.
  intros Hp Hq. split; [by apply Path_of_string_names|].
  intros Hsame.
  rewrite <- (Path_of_string_names p), <- (Path_of_string_names q) by done.
  by rewrite Hsame.
Qed.

(** ** LoadFilmModel.get_models *)

Section get_models_properties.
Context `{Delegate} (models_dir : Path) (root : Node).

Lemma entry_is_Some (name : string) (entries : list (string * Node)) :
  is_Some (entry name entries) <-> name ∈ entries.*1.
Proof.
  induction entries as [|[n child] entries IH]; simpl.
  - rewrite elem_of_nil. split; [by intros [? ?]|done].
  - rewrite elem_of_cons. destruct (decide (n = name)) as [->|Hne].
    + split; [by left|eauto].
    + rewrite IH. split; [by right|]. by intros [->|?].
Qed.

(** The names listed in a directory are those of its entries, dangling
    links included. *)
Lemma listdir_stat (dir : Path) (name : string) :
  name ∈ listdir root dir <-> is_Some (stat root (dir / name)%path).
Proof.
  unfold listdir, joinpath. rewrite stat_app.
  destruct (stat root dir) as [[| |entries]|]; simpl.
  - rewrite elem_of_nil. split; [done|by intros [? ?]].
  - rewrite elem_of_nil. split; [done|by intros [? ?]].
  - rewrite elem_of_remove_dups, <- entry_is_Some.
    by destruct (entry name entries).
  - rewrite elem_of_nil. split; [done|by intros [? ?]].
Qed.



Lemma is_plain_name (name : string) : is_plain name = true -> is_name name = true.
Proof. unfold is_plain. by intros [? _]%andb_true_iff. Qed.

Lemma model_path_names (name : string) :
  Forall (fun c => is_plain c = true) models_dir ->
  is_name name = true ->
  Forall (fun c => is_name c = true) (models_dir / "FILM" / name)%path.
Proof.
  intros Hdir Hname. unfold joinpath. rewrite !Forall_app. repeat split.
  - eapply Forall_impl; [exact Hdir|]. apply is_plain_name.
  - by repeat constructor.
  - by repeat constructor.
Qed.

Lemma suffix_test (dir : Path) (name : string) :
  endswith (as_posix (dir / name)%path) ".onnx"
  || endswith (as_posix (dir / name)%path) ".pth" = true
  <-> endswith name ".onnx" = true \/ endswith name ".pth" = true.
Proof.
  rewrite as_posix_joinpath.
  rewrite (endswith_after_slash _ name ".onnx") by reflexivity.
  rewrite (endswith_after_slash _ name ".pth") by reflexivity.
  apply orb_true_iff.
Qed.

(** Whatever [get_models] lists is an entry of [FILM] that is not hidden
    and has one of the two suffixes. *)
Lemma get_models_sound (p : Path) :
  Forall (fun c => is_plain c = true) models_dir ->
  Forall (fun name => is_name name = true)
    (listdir root (models_dir / "FILM")%path) ->
  p ∈ LoadFilmModel.get_models models_dir root ->
  exists name,
    p = (models_dir / "FILM" / name)%path
    /\ is_Some (stat root p)
    /\ ishidden name = false
    /\ (endswith name ".onnx" = true \/ endswith name ".pth" = true).
Proof.
  intros Hdir Hnames. unfold LoadFilmModel.get_models, glob_star.
  rewrite list_elem_of_fmap. intros (x & -> & Hx).
  apply list_elem_of_In, filter_In in Hx as [Hx Hsuffix].
  apply list_elem_of_In, list_elem_of_fmap in Hx as (name & -> & Hname).
  apply list_elem_of_In, filter_In in Hname as [Hname Hshown].
  apply list_elem_of_In in Hname.
  assert (is_name name = true) as Hn
    by (by eapply Forall_forall in Hnames).
  exists name. rewrite Path_of_string_names by by apply model_path_names.
  apply suffix_test in Hsuffix.
  repeat split; [by apply listdir_stat|by apply negb_true_iff|done].
Qed.


(** What lies below a path lies below a directory. *)
Lemma path_exists_below (dir : Path) (name : string) :
  path_exists root (dir / name)%path = true ->
  exists entries, stat root dir = Some (Dir entries).
Proof.
  unfold path_exists, joinpath. rewrite stat_app.
  destruct (stat root dir) as [[| |entries]|]; simpl;
    [discriminate..|eauto|discriminate].
Qed.

(** X4: for a models directory whose components are plain names, when
    [models_dir / "FILM"] is missing, or is a regular file or a dangling link,
    [get_models] returns the empty list without failing, whereas
    [load_model] raises [ValueError] for every preset, naming the
    [saved_model] subdirectory it looked for last. *)
Theorem no_FILM_directory :
  Forall (fun c => is_plain c = true) models_dir ->
  (forall entries, stat root (models_dir / "FILM")%path <> Some (Dir entries)) ->
  LoadFilmModel.get_models models_dir root = []
  /\ (forall film_model s,
        film_model ∈ ["L1"; "Style"; "VGG"] ->
        let p := (models_dir / "FILM" / film_model / "saved_model")%path in
        LoadFilmModel.load_model models_dir root film_model s
        = (inl (ValueError (ModelDoesNotExist p)),
           record s [Log ERROR (ModelDoesNotExist p)])).
Proof.
  intros _ Hnone. split.
  - unfold LoadFilmModel.get_models, glob_star, listdir.
    destruct (stat root (models_dir / "FILM")%path) as [[| |entries]|] eqn:Hstat;
      try done.
    by destruct (Hnone entries).
  - intros film_model s _ p.
    assert (forall q : string,
              path_exists root (models_dir / "FILM" / film_model / q)%path
              = false) as Hbelow.
    { intros q.
      destruct (path_exists root (models_dir / "FILM" / film_model / q)%path)
        eqn:Hq; [|done].
      apply path_exists_parent, path_exists_below in Hq as [entries Hq].
      by destruct (Hnone entries). }
    pose proof (load_model_unfold models_dir root film_model s) as Hload.
    simpl in Hload. rewrite (Hbelow "saved_model.pb") in Hload.
    by rewrite (Hbelow "saved_model") in Hload.
Qed.

(** X5: [get_models] never lists the path [load_model] resolves for a preset,
    whether [load_model] finds it or reports it missing: the presets are
    directories of a saved model, not [.onnx] or [.pth] entries. *)
Theorem get_models_misses_presets (film_model : string) (level : Level) (p : Path) :
  Forall (fun c => is_plain c = true) models_dir ->
  Forall (fun name => is_name name = true)
    (listdir root (models_dir / "FILM")%path) ->
  film_model ∈ ["L1"; "Style"; "VGG"] ->
  let run := LoadFilmModel.load_model models_dir root film_model init in
  Log level (LoadingModel p) ∈ events run.2
  \/ Log level (ModelDoesNotExist p) ∈ events run.2 ->
  p ∉ LoadFilmModel.get_models models_dir root.
Proof.
  intros Hdir Hnames Hpreset run Hlogged Hlisted.
  apply get_models_sound in Hlisted
    as (name & Hp & _ & _ & Hsuffix); [|done..].
  assert (p = (models_dir / "FILM" / film_model)%path
          \/ p = (models_dir / "FILM" / film_model / "saved_model")%path)
    as Hresolved.
  { unfold run in Hlogged.
    rewrite (load_model_unfold models_dir root film_model init) in Hlogged.
    simpl in Hlogged.
    destruct (path_exists root
                (models_dir / "FILM" / film_model / "saved_model.pb")%path);
      [destruct (path_exists root (models_dir / "FILM" / film_model)%path)
      |destruct (path_exists root
                   (models_dir / "FILM" / film_model / "saved_model")%path)];
      simpl in Hlogged;
      rewrite !elem_of_cons, !elem_of_nil in Hlogged;
      decompose [or] Hlogged; try done; simplify_eq; auto. }
  destruct Hresolved as [-> | ->].
  - apply app_inj_tail in Hp as [_ <-].
    rewrite !elem_of_cons, elem_of_nil in Hpreset.
    destruct Hpreset as [-> | [-> | [-> | []]]];
      by destruct Hsuffix.
  - apply (f_equal length) in Hp. unfold joinpath in Hp.
    rewrite !length_app in Hp. simpl in Hp. lia.
Qed.

End get_models_properties.

(** ** More on FilmInterpolation.do_interpolation *)

Section do_interpolation_outcomes.
Context `{Delegate} (available_gpus : list Device) (interrupted : nat -> bool).

Notation do_interpolation :=
  (FilmInterpolation.do_interpolation available_gpus interrupted).
Notation to_tensor := FilmInterpolation.to_tensor.

Lemma existsb_below (n : nat) :
  existsb interrupted (seq 0 n) = false
  <-> forall j, j < n -> interrupted j = false.
Proof.
  split.
  - intros Hnone j Hj.
    destruct (interrupted j) eqn:Hflag; [|done].
    assert (existsb interrupted (seq 0 n) = true) as Hsome; [|congruence].
    apply existsb_exists. exists j. split; [|done]. apply in_seq. lia.
  - intros Hdown. destruct (existsb interrupted (seq 0 n)) eqn:Hsome; [|done].
    apply existsb_exists in Hsome as (j & Hj%in_seq & Hflag).
    rewrite Hdown in Hflag by lia. discriminate.
Qed.

(** X6: what decides the result on a batch that is not empty, in this order:
    a flag found raised at one of the polls that follow the frames gives
    [InterruptProcessingException]; else an exception of the delegate is
    passed on; else [torch.cat] refuses the frames when there is none or
    when they differ in shape; else the converted frames are returned,
    cast to the dtype they promote to. *)
Theorem do_interpolation_outcome images d film_model :
  images <> [] ->
  let g := interpolate_recursively_from_memory images d film_model in
  (do_interpolation images d film_model init).1
  = if existsb interrupted (seq 0 (length (produced g)))
    then inl InterruptProcessingException
    else match raised g with
         | Some exn => inl (DelegateInferenceError exn)
         | None =>
             if stackable (to_tensor <$> produced g)
             then inr (promoted (to_tensor <$> produced g))
             else inl (TorchCatError (cat_failure (to_tensor <$> produced g)))
         end.
Proof.
  intros Hne g.
  destruct (do_interpolation images d film_model init) as [r s'] eqn:Hrun.
  apply do_interpolation_spec in Hrun
    as (counted & last & closing & _ & _ & _ & _ & Hj & Hr); [|done].
  fold g in Hr. simpl.
  destruct r as [[msg| | |exn]|out].
  - done.
  - destruct Hr as (_ & frame & _ & Hlook%lookup_lt_Some & _ & Hflag).
    destruct (existsb interrupted _) eqn:Hsome; [done|].
    rewrite existsb_below in Hsome. rewrite Hsome in Hflag by done.
    discriminate.
  - destruct Hr as (_ & _ & -> & -> & -> & ->).
    by apply existsb_below in Hj as ->.
  - destruct Hr as (_ & _ & -> & ->).
    by apply existsb_below in Hj as ->.
  - destruct Hr as (_ & _ & -> & -> & -> & ->).
    by apply existsb_below in Hj as ->.
Qed.

Lemma stackable_shapes (tensors : list Tensor) :
  stackable tensors = true ->
  tensors <> []
  /\ forall t1 t2, t1 ∈ tensors -> t2 ∈ tensors -> shape t1 = shape t2.
Proof.
  destruct tensors as [|t ts]; [discriminate|]. simpl.
  rewrite forallb_forall. intros Hall. split; [done|].
  assert (forall t', t' ∈ t :: ts -> shape t' = shape t) as Hfirst.
  { intros t' [->|Hin]%elem_of_cons; [done|].
    apply list_elem_of_In, Hall in Hin. by apply bool_decide_eq_true in Hin. }
  intros t1 t2 H1 H2. by rewrite (Hfirst t1), (Hfirst t2).
Qed.

(** X7: a returned batch is empty only for an empty input; for any other
    input it holds at least one image and its images have one shape. *)
Theorem returned_batch_empty_iff images d film_model out s' :
  do_interpolation images d film_model init = (inr out, s') ->
  (out = [] <-> images = [])
  /\ (images <> [] ->
      forall t1 t2, t1 ∈ out -> t2 ∈ out -> shape t1 = shape t2).
Proof.
  intros Hrun. destruct images as [|image images].
  - injection Hrun as <- _. done.
  - apply do_interpolation_spec in Hrun
      as (counted & last & closing & _ & _ & _ & _ & _ & Hr); [|done].
    destruct Hr as (_ & _ & _ & _ & -> & Hstack).
    apply stackable_shapes in Hstack as [Hsome Hshape].
    split.
    + split; [|done]. intros Hnil. apply (f_equal length) in Hnil.
      rewrite length_promoted in Hnil. by apply nil_length_inv in Hnil.
    + intros _ t1 t2 (t1' & H1 & ->)%promoted_shape
        (t2' & H2 & ->)%promoted_shape.
      by apply Hshape.
Qed.

(** X8: for a depth that is not negative, an exception of the delegate,
    raised after it has yielded some frames and with no interruption
    seen, leaves [do_interpolation] as it is:
    every frame yielded before it was polled and counted, the collected
    tensors are not returned, and nothing is logged after the failure. *)
Theorem delegate_error_propagates images d film_model exn :
  images <> [] ->
  (0 <= d)%Z ->
  let g := interpolate_recursively_from_memory images d film_model in
  raised g = Some exn ->
  (forall j, j < length (produced g) -> interrupted j = false) ->
  exists s',
    do_interpolation images d film_model init
    = (inl (DelegateInferenceError exn), s')
    /\ events s' = prelude available_gpus images d film_model
                    ++ (produced g ≫= iteration)
    /\ progress (events s') = Z.of_nat (length (produced g))
    /\ out_tensors s' = to_tensor <$> produced g.
Proof.
  intros Hne _ g Hraised Hquiet.
  destruct (do_interpolation images d film_model init) as [r s'] eqn:Hrun.
  apply do_interpolation_spec in Hrun
    as (counted & last & closing & Hev & _ & _ & Ho & _ & Hr); [|done].
  fold g in Hr.
  destruct r as [[msg| | |exn']|out].
  { done. }
  { destruct Hr as (_ & frame & _ & Hlook%lookup_lt_Some & _ & Hflag).
    rewrite Hquiet in Hflag by done. discriminate. }
  { destruct Hr as (_ & _ & _ & Hret & _). congruence. }
  2: { destruct Hr as (_ & _ & _ & Hret & _). congruence. }
  destruct Hr as (-> & -> & -> & Hexn).
  assert (exn' = exn) as -> by congruence.
  rewrite app_nil_r in Ho.
  exists s'. split; [done|]. split; [|split; [|done]].
  - rewrite Hev. simpl. by rewrite !app_nil_r.
  - unfold progress.
    rewrite Hev, !increments_app, increments_prelude, increments_iterations.
    simpl. by rewrite app_nil_r, progress_replicate.
Qed.

(** X9: for a depth that is not negative, a delegate that returns without
    yielding a frame, as for a batch of one image when frames come per
    adjacent pair, makes a call on a batch that is not empty end in the
    exception [torch.cat] raises on an empty list, after the progress bar
    was created and without a single poll. *)
Theorem no_frame_no_batch images d film_model :
  images <> [] ->
  (0 <= d)%Z ->
  let g := interpolate_recursively_from_memory images d film_model in
  produced g = [] ->
  raised g = None ->
  do_interpolation images d film_model init
  = (inl (TorchCatError EmptyList),
     {| events := prelude available_gpus images d film_model;
        polls := 0;
        out_tensors := [] |}).
Proof.
  intros Hne _ g Hnone Hret.
  destruct (do_interpolation images d film_model init) as [r s'] eqn:Hrun.
  apply do_interpolation_spec in Hrun
    as (counted & last & closing & Hev & _ & Hp & Ho & _ & Hr); [|done].
  fold g in Hr.
  destruct r as [[msg| |cause|exn]|out].
  { done. }
  { destruct Hr as (_ & frame & _ & Hlook & _). by rewrite Hnone in Hlook. }
  2: { destruct Hr as (_ & _ & _ & Hexn). congruence. }
  2: { destruct Hr as (_ & _ & _ & _ & -> & Hstack).
       by rewrite Hnone in Hstack. }
  destruct Hr as (-> & -> & -> & _ & _ & ->).
  rewrite Hnone in Hev, Hp, Ho. rewrite Hnone. simpl in Hp, Ho.
  change (cat_failure (to_tensor <$> [])) with EmptyList.
  change (events s' = prelude available_gpus images d film_model ++ [])
    in Hev.
  rewrite app_nil_r in Hev. destruct s'. simpl in *. by subst.
Qed.

(** X10: in every call the flag is read once for each frame pulled, each frame
    pulled is appended, and the progress counter is the number of polls,
    or one less when the call ends with the interruption. *)
Theorem polls_follow_frames images d film_model :
  let run := do_interpolation images d film_model init in
  polls run.2 = length (yielded (events run.2))
  /\ length (out_tensors run.2) = length (yielded (events run.2))
  /\ (progress (events run.2) <= Z.of_nat (polls run.2)
      <= progress (events run.2) + 1)%Z
  /\ (progress (events run.2) = Z.of_nat (polls run.2)
      <-> run.1 <> inl InterruptProcessingException).
Proof.
  intros run. destruct images as [|image images].
  - unfold run. simpl. repeat split; done.
  - destruct run as [r s'] eqn:Hrun. unfold run in Hrun.
    apply do_interpolation_spec in Hrun
      as (counted & last & closing & Hev & Hclosing & Hp & Ho & _ & Hr);
      [|done].
    destruct (closing_views _ Hclosing) as (Hcy & Hci & _ & _).
    assert (yielded (events s') = counted ++ last) as Hy.
    { rewrite Hev, !yielded_app, yielded_prelude, yielded_iterations,
        yielded_cancelled, Hcy. simpl. by rewrite app_nil_r. }
    assert (progress (events s') = Z.of_nat (length counted)) as Hprog.
    { unfold progress.
      rewrite Hev, !increments_app, increments_prelude, increments_iterations,
        increments_cancelled, Hci. simpl.
      by rewrite app_nil_r, progress_replicate. }
    simpl. rewrite Hy, Ho, Hprog, Hp, length_fmap, length_app.
    assert (match r with
            | inl InterruptProcessingException => length last = 1
            | _ => length last = 0
            end) as Hlast.
    { destruct r as [[msg| | |exn]|out]; [done|..].
      - by destruct Hr as (_ & frame & -> & _).
      - by destruct Hr as (_ & -> & _).
      - by destruct Hr as (_ & -> & _).
      - by destruct Hr as (_ & -> & _). }
    destruct r as [[msg| | |exn]|out]; repeat split; try done; lia.
Qed.

(** X11: the total the progress bar is created with is never negative, is zero
    exactly for a batch of one image or a depth of zero, and for the
    depths the schema allows is at most [(n - 1) * (2 ^ 50 - 1)]. *)
Theorem progress_total_bounds images d film_model :
  images <> [] ->
  (0 <= d)%Z ->
  let run := do_interpolation images d film_model init in
  let total := ((Z.of_nat (length images) - 1) * (2 ^ d - 1))%Z in
  totals (events run.2) = [total]
  /\ (0 <= total)%Z
  /\ (total = 0%Z <-> length images = 1 \/ d = 0%Z)
  /\ ((d <= 50)%Z ->
      (total <= (Z.of_nat (length images) - 1) * (2 ^ 50 - 1))%Z).
Proof.
  intros Hne Hd run total.
  assert (1 <= length images) as Hn.
  { destruct images; [done|]. simpl. lia. }
  assert (1 <= 2 ^ d)%Z as Hpow by (apply (Z.pow_le_mono_r 2 0 d); lia).
  split; [|split; [|split]].
  - destruct run as [r s'] eqn:Hrun. unfold run in Hrun.
    apply do_interpolation_spec in Hrun
      as (counted & last & closing & Hev & Hclosing & _); [|done].
    destruct (closing_views _ Hclosing) as (_ & _ & Hct & _).
    simpl. by rewrite Hev, !totals_app, totals_prelude, totals_iterations,
      totals_cancelled, Hct.
  - unfold total. nia.
  - unfold total. split.
    + intros [Hlen|Hone]%Z.mul_eq_0; [left; lia|right].
      destruct (decide (d = 0%Z)) as [|Hpos]; [done|].
      pose proof (Z.pow_le_mono_r 2 1 d). lia.
    + intros [Hlen| ->]; [rewrite Hlen|]; simpl; lia.
  - intros Hmax. unfold total.
    pose proof (Z.pow_le_mono_r 2 d 50). nia.
Qed.

(** X12: a call does not read what earlier calls left in the machine: its
    result, its polls and, on a batch that is not empty, the tensors it
    collects are those of the call on a machine holding only the count of
    polls, and its trace is the earlier trace followed by the trace of
    that call. *)
Theorem do_interpolation_fresh images d film_model s :
  let fresh := {| events := []; polls := polls s; out_tensors := [] |} in
  let run := do_interpolation images d film_model s in
  let alone := do_interpolation images d film_model fresh in
  run.1 = alone.1
  /\ events run.2 = events s ++ events alone.2
  /\ polls run.2 = polls alone.2
  /\ (images <> [] -> out_tensors run.2 = out_tensors alone.2).
Proof.
  intros fresh run alone. unfold run, alone.
  destruct images as [|image images].
  - simpl. by rewrite app_nil_r.
  - rewrite !do_interpolation_frame by done. unfold fresh. simpl.
    set (loop := FilmInterpolation.for_frames interrupted _ _).
    destruct loop as [[e|[]] s0]; simpl; [done|].
    by destruct (stackable (out_tensors s0)).
Qed.

End do_interpolation_outcomes.

(** ** What the interruption flag can change *)

Section Flag.
Context `{Delegate} (available_gpus : list Device).
Variables (flag1 flag2 : nat -> bool).

Lemma for_frames_agree g s :
  (forall j, j < length (produced g) -> flag1 (polls s + j) = flag2 (polls s + j)) ->
  FilmInterpolation.for_frames flag1 g s = FilmInterpolation.for_frames flag2 g s.
Proof.
  revert s. induction g as [frame rest IH| |exn]; intros s Hsame; [|done..].
  simpl. unfold bind, emit, FilmInterpolation.append,
    FilmInterpolation.throw_exception_if_processing_interrupted; simpl.
  pose proof (Hsame 0) as Hnow. rewrite Nat.add_0_r in Hnow.
  rewrite <- Hnow by (simpl; lia).
  destruct (flag1 (polls s)); [done|].
  apply IH. simpl. intros j Hj.
  specialize (Hsame (S j)). rewrite Nat.add_succ_r in Hsame.
  apply Hsame. simpl. lia.
Qed.

(** X13: the flag is read only at the polls that follow the frames: two calls
    under flags that agree on those polls do the same, so a flag raised
    after the poll of the last frame is not seen. *)
Theorem flag_read_at_frames_only images d film_model :
  (forall j,
      j < length (produced (interpolate_recursively_from_memory images d film_model)) ->
      flag1 j = flag2 j) ->
  FilmInterpolation.do_interpolation available_gpus flag1 images d film_model init
  = FilmInterpolation.do_interpolation available_gpus flag2 images d film_model init.
Proof.
  intros Hsame. destruct images as [|image images]; [done|].
  rewrite !do_interpolation_unfold by done. simpl.
  by rewrite for_frames_agree.
Qed.

End Flag.

(** ** More on LoadFilmModel.load_model *)

Section load_model_effects.
Context `{Delegate} (models_dir : Path) (root : Node).

(** X14: [load_model] calls the inference library once, after validation, or
    not at all when it raises [ValueError]; it never reads the
    interruption flag, never touches a progress bar and pulls no frame. *)
Theorem load_model_calls film_model :
  film_model ∈ ["L1"; "Style"; "VGG"] ->
  let run := LoadFilmModel.load_model models_dir root film_model init in
  (List.filter is_delegate_call (events run.2) = []
   <-> exists msg, run.1 = inl (ValueError msg))
  /\ (List.filter is_delegate_call (events run.2) = []
      \/ exists p,
           List.filter is_delegate_call (events run.2)
           = [InterpolatorInit (as_posix p)]
           /\ path_exists root p = true)
  /\ polls run.2 = 0
  /\ totals (events run.2) = []
  /\ increments (events run.2) = []
  /\ yielded (events run.2) = [].
Proof.
  intros _ run. unfold run. rewrite load_model_unfold. simpl.
  set (dir := (models_dir / "FILM" / film_model)%path).
  set (resolved := if path_exists root (dir / "saved_model.pb")%path
                   then dir else (dir / "saved_model")%path).
  destruct (path_exists root resolved) eqn:Hfound; simpl.
  - split; [split; [done|]|split; [|done]].
    + by intros (msg & Hmsg); destruct (Interpolator_init _).
    + right. by exists resolved.
  - split; [split; [eauto|done]|split; [by left|done]].
Qed.

End load_model_effects.

(** ** Linking the nodes *)

Lemma required_LoadFilmModel (input : string) :
  required LoadFilmModel.INPUT_TYPES input
  = if decide ("film_model" = input)
    then Some (Choices ["L1"; "Style"; "VGG"], Some {[ "default" := OStr "Style" ]})
    else None.
Proof.
  unfold required, LoadFilmModel.INPUT_TYPES, Schema, Declaration.
  rewrite lookup_singleton_eq. simpl. by rewrite lookup_singleton.
Qed.

Lemma required_FilmInterpolation (input : string) :
  required FilmInterpolation.INPUT_TYPES input
  = if decide ("images" = input) then Some (Tag "IMAGE", None)
    else if decide ("interpolate" = input)
    then Some (Tag "INT",
               Some {[ "default" := OInt 2; "min" := OInt 1; "max" := OInt 50 ]})
    else if decide ("film_model" = input) then Some (Tag "FILM_MODEL", None)
    else None.
Proof.
  unfold required, FilmInterpolation.INPUT_TYPES, Schema, Declaration.
  rewrite lookup_singleton_eq. simpl.
  by rewrite !lookup_insert, lookup_singleton.
Qed.

(** X15: among the registered nodes the only links the declared types allow
    are: the output of [LoadFilmModel] into the [film_model] input of
    [FilmInterpolation], and the output of [FilmInterpolation] into its
    own [images] input.  [LoadFilmModel] takes no link at all. *)
Theorem node_links :
  Forall (fun source =>
    Forall (fun target =>
      forall input,
        connectable source target input = true
        <-> class_name target = "FilmInterpolation"
            /\ (class_name source = "LoadFilmModel" /\ input = "film_model"
                \/ class_name source = "FilmInterpolation" /\ input = "images"))
      __nodes__) __nodes__.
Proof.
  unfold __nodes__.
  repeat first [apply Forall_nil_2 | apply Forall_cons_2];
    intros input; unfold connectable; simpl;
    rewrite ?required_LoadFilmModel, ?required_FilmInterpolation;
    repeat case_decide; subst; simpl; split;
    try discriminate; try tauto; intuition congruence.
Qed.

(** ** Concrete runs on the stub *)

#[local] Existing Instance Stub.delegate.

(** The example of the specification: three images give two frames at
    depth 1 and six at depth 2. *)
Example three_images_depth_1 :
  (FilmInterpolation.do_interpolation (H:=Stub.delegate)
     [] Stub.never [1; 2; 3] 1 tt init).1 = inr [101; 201].
Proof. reflexivity. Qed.

Example three_images_depth_2 :
  (FilmInterpolation.do_interpolation (H:=Stub.delegate)
     [] Stub.never [1; 2; 3] 2 tt init).1
  = inr [101; 102; 103; 201; 202; 203].
Proof. reflexivity. Qed.

(** A single image leaves [torch.cat] with nothing to stack. *)
Example single_image :
  (FilmInterpolation.do_interpolation (H:=Stub.delegate)
     [] Stub.never [1] 2 tt init).1 = inl (TorchCatError EmptyList).
Proof. reflexivity. Qed.

(** [VGG] is not on the stub disk: loading it raises [ValueError]. *)
Lemma load_model_not_found_witness :
  exists p,
    LoadFilmModel.load_model (H:=Stub.delegate) Stub.models_dir Stub.disk "VGG" init
    = (inl (ValueError (ModelDoesNotExist p)),
       record init [Log ERROR (ModelDoesNotExist p)]).
Proof.
  assert ("VGG" ∈ ["L1"; "Style"; "VGG"]) as Hpreset by repeat constructor.
  destruct (load_model_not_found (H:=Stub.delegate)
              Stub.models_dir Stub.disk "VGG" init Hpreset) as [Hfails _].
  apply Hfails; reflexivity.
Defined.

(** [L1] has no top-level marker: the [saved_model] subdirectory is
    logged, then loaded. *)
Lemma load_model_resolution_witness :
  LoadFilmModel.load_model (H:=Stub.delegate) Stub.models_dir Stub.disk "L1" init
  = (inr tt,
     record init
       [Log INFO (LoadingModel
                    ["opt"; "ComfyUI"; "models"; "FILM"; "L1"; "saved_model"]);
        InterpolatorInit "/opt/ComfyUI/models/FILM/L1/saved_model"]).
Proof.
  assert ("L1" ∈ ["L1"; "Style"; "VGG"]) as Hpreset by repeat constructor.
  destruct (load_model_resolution (H:=Stub.delegate)
              Stub.models_dir Stub.disk "L1" init Hpreset)
    as (resolved & Hfallback & _ & Hfound & _).
  assert (resolved
          = ["opt"; "ComfyUI"; "models"; "FILM"; "L1"; "saved_model"])
    as -> by (apply Hfallback; reflexivity).
  apply Hfound. reflexivity.
Defined.

(** Three images at depth 2: six frames. *)
Lemma do_interpolation_length_witness :
  exists out s',
    FilmInterpolation.do_interpolation (H:=Stub.delegate)
      [] Stub.never [1; 2; 3] 2 tt init = (inr out, s')
    /\ Z.of_nat (length out) = 6%Z
    /\ out = [101; 102; 103; 201; 202; 203].
Proof.
  destruct (do_interpolation_length (H:=Stub.delegate) [] Stub.never
              [1; 2; 3] 2%Z tt
              [[inl 101; inl 102; inl 103]; [inl 201; inl 202; inl 203]])
    as [Hlength Hreturns].
  - simpl. lia.
  - lia.
  - reflexivity.
  - reflexivity.
  - reflexivity.
  - repeat constructor.
  - destruct Hreturns as (out & s' & Hrun).
    + intros j _. reflexivity.
    + intros t1 t2 _ _. reflexivity.
    + exists out, s'. split; [exact Hrun|].
      destruct (Hlength out s' Hrun) as (Hlen & Hout & _).
      split; [exact Hlen|exact Hout].
Defined.

(** The flag is found raised after the fourth frame: four tensors were
    collected, none is returned. *)
Lemma do_interpolation_cancelled_witness :
  exists s',
    FilmInterpolation.do_interpolation (H:=Stub.delegate)
      [] (Stub.raised_from 3) [1; 2; 3] 2 tt init
    = (inl InterruptProcessingException, s')
    /\ out_tensors s' = [101; 102; 103; 201]
    /\ (forall out s'',
          FilmInterpolation.do_interpolation (H:=Stub.delegate)
            [] (Stub.raised_from 3) [1; 2; 3] 2 tt init <> (inr out, s'')).
Proof.
  apply (do_interpolation_cancelled (H:=Stub.delegate) [] (Stub.raised_from 3)
           [1; 2; 3] 2%Z tt 4).
  - discriminate.
  - simpl. lia.
  - intros j Hj. apply Nat.leb_gt. lia.
  - reflexivity.
Defined.

(** The flag is found raised after the second frame: one increment. *)
Lemma progress_at_cancellation_witness :
  exists s' before frame,
    FilmInterpolation.do_interpolation (H:=Stub.delegate)
      [] (Stub.raised_from 1) [1; 2; 3] 1 tt init
    = (inl InterruptProcessingException, s')
    /\ Some (inl 201 : Frame) = Some frame
    /\ events s' = before ++ [Next frame; InterruptPoll]
    /\ yielded (events s') = [inl 101; inl 201]
    /\ length (out_tensors s') = 2
    /\ increments (events s') = [1%Z]
    /\ progress (events s') = 1%Z.
Proof.
  apply (progress_at_cancellation (H:=Stub.delegate) [] (Stub.raised_from 1)
           [1; 2; 3] 1%Z tt 2).
  - discriminate.
  - simpl. lia.
  - intros j Hj. apply Nat.leb_gt. lia.
  - reflexivity.
Defined.

(** An uninterrupted call: a bar of total 6 that ends at 6. *)
Lemma progress_counts_completed_iterations_witness :
  let run := FilmInterpolation.do_interpolation (H:=Stub.delegate)
               [] Stub.never [1; 2; 3] 2 tt init in
  totals (events run.2) = [6%Z] /\ progress (events run.2) = 6%Z.
Proof.
  intros run.
  destruct (progress_counts_completed_iterations (H:=Stub.delegate)
              [] Stub.never [1; 2; 3] 2%Z tt run.1 run.2)
    as (counted & last & _ & _ & _ & _ & Htotal & _ & _ & Hfinal).
  - discriminate.
  - lia.
  - apply surjective_pairing.
  - split; [exact Htotal|].
    exact (proj1 (Hfinal [101; 102; 103; 201; 202; 203] eq_refl)).
Defined.

(** Three images at depth 1: the two frames, in yield order. *)
Lemma output_order_witness :
  let run := FilmInterpolation.do_interpolation (H:=Stub.delegate)
               [] Stub.never [1; 2; 3] 1 tt init in
  [101; 201] = FilmInterpolation.to_tensor (H:=Stub.delegate)
                 <$> yielded (events run.2).
Proof.
  intros run.
  destruct (output_order (H:=Stub.delegate) [] Stub.never
              [1; 2; 3] 1%Z tt [101; 201] run.2 eq_refl)
    as (_ & _ & _ & Hsame & _).
  destruct Hsame as [Hout _]; [|exact Hout].
  intros t1 t2 _ _. reflexivity.
Defined.

(** C5 as stated fails on the code.  When the flag is raised at the first
    poll, one frame has been pulled from the delegate and the progress bar
    has not been incremented; and on an empty batch no progress bar is
    created at all. *)
Lemma progress_misses_cancelled_frame :
  let cancelled := FilmInterpolation.do_interpolation (H:=Stub.delegate)
                     [] Stub.always [1; 2] 1 tt init in
  let empty := FilmInterpolation.do_interpolation (H:=Stub.delegate)
                 [] Stub.never [] 1 tt init in
  (cancelled.1 = inl InterruptProcessingException
   /\ yielded (events cancelled.2) = [inl 101]
   /\ increments (events cancelled.2) = []
   /\ length (increments (events cancelled.2))
      <> length (yielded (events cancelled.2)))
  /\ (empty.1 = inr [] /\ totals (events empty.2) = []).
Proof. vm_compute. repeat split. discriminate. Qed.

(** ** Concrete runs for the further properties *)


Lemma Path_of_string_as_posix_witness :
  Path_of_string "/opt/ComfyUI/models" = ["opt"; "ComfyUI"; "models"].
Proof.
  apply (Path_of_string_as_posix ["opt"; "ComfyUI"; "models"] []).
  - repeat constructor.
  - constructor.
Defined.

(** Without a [FILM] directory nothing is listed and [Style] is not found. *)
Lemma no_FILM_directory_witness :
  LoadFilmModel.get_models Stub.models_dir Shelf.bare = []
  /\ (LoadFilmModel.load_model Stub.models_dir Shelf.bare "Style" init).1
     = inl (ValueError
              (ModelDoesNotExist
                 ["opt"; "ComfyUI"; "models"; "FILM"; "Style"; "saved_model"])).
Proof.
  destruct (no_FILM_directory Stub.models_dir Shelf.bare) as [Hempty Hraises].
  - repeat constructor.
  - intros entries. discriminate.
  - split; [exact Hempty|].
    rewrite (Hraises "Style" init); [reflexivity|].
    repeat constructor.
Defined.

(** The [Style] directory is loaded and is not among the listed models. *)
Lemma get_models_misses_presets_witness :
  ["opt"; "ComfyUI"; "models"; "FILM"; "Style"]
  ∉ LoadFilmModel.get_models Stub.models_dir Shelf.disk.
Proof.
  apply (get_models_misses_presets Stub.models_dir Shelf.disk "Style" INFO).
  - repeat constructor.
  - vm_compute. repeat constructor.
  - repeat constructor.
  - left. vm_compute. constructor.
Defined.

(** Three images at depth 2 under a flag raised from the fifth poll on. *)
Lemma do_interpolation_outcome_witness :
  (FilmInterpolation.do_interpolation
     [] (Stub.raised_from 4) [1; 2; 3] 2 tt init).1
  = inl InterruptProcessingException.
Proof.
  apply (do_interpolation_outcome (H:=Stub.delegate) [] (Stub.raised_from 4) [1; 2; 3] 2%Z tt).
  discriminate.
Defined.

Lemma returned_batch_empty_iff_witness :
  let run := FilmInterpolation.do_interpolation
               [] Stub.never [1; 2; 3] 1 tt init in
  (([101; 201] : Batch) = [] <-> ([1; 2; 3] : Batch) = []).
Proof.
  intros run.
  exact (proj1 (returned_batch_empty_iff (H:=Stub.delegate) [] Stub.never
                  [1; 2; 3] 1%Z tt [101; 201] run.2 eq_refl)).
Defined.

(** A batch of one image: the stub yields nothing. *)
Lemma no_frame_no_batch_witness :
  FilmInterpolation.do_interpolation [] Stub.never [1] 2 tt init
  = (inl (TorchCatError EmptyList),
     {| events := prelude [] [1] 2 tt; polls := 0; out_tensors := [] |}).
Proof.
  apply (no_frame_no_batch (H:=Stub.delegate) [] Stub.never [1] 2%Z tt).
  - discriminate.
  - lia.
  - reflexivity.
  - reflexivity.
Defined.

Lemma progress_total_bounds_witness :
  totals (events (FilmInterpolation.do_interpolation
                    [] Stub.never [1; 2; 3] 2 tt init).2) = [6%Z].
Proof.
  apply (progress_total_bounds (H:=Stub.delegate) [] Stub.never [1; 2; 3] 2%Z tt).
  - discriminate.
  - lia.
Defined.

(** Two frames are pulled: a flag raised from the third poll on is the
    flag that is never raised. *)
Lemma flag_read_at_frames_only_witness :
  FilmInterpolation.do_interpolation [] Stub.never [1; 2; 3] 1 tt init
  = FilmInterpolation.do_interpolation
      [] (Stub.raised_from 2) [1; 2; 3] 1 tt init.
Proof.
  apply (flag_read_at_frames_only (H:=Stub.delegate) [] Stub.never (Stub.raised_from 2)).
  intros j Hj. simpl in Hj. symmetry. apply Nat.leb_gt. lia.
Defined.

(** [VGG] is not installed: the library is not called. *)
Lemma load_model_calls_witness :
  List.filter is_delegate_call
    (events (LoadFilmModel.load_model Stub.models_dir Stub.disk "VGG" init).2)
  = [].
Proof.
  assert ("VGG" ∈ ["L1"; "Style"; "VGG"]) as Hpreset by repeat constructor.
  destruct (load_model_calls Stub.models_dir Stub.disk "VGG" Hpreset)
    as [Hnone _].
  apply Hnone. eexists. reflexivity.
Defined.

Section Faulty_runs.
#[local] Existing Instance Faulty.delegate.

(** The library fails after two frames: both were counted. *)
Lemma delegate_error_propagates_witness :
  exists s',
    FilmInterpolation.do_interpolation [] Stub.never [1] 1 tt init
    = (inl (DelegateInferenceError "resource exhausted"), s')
    /\ progress (events s') = 2%Z
    /\ out_tensors s' = [7; 8].
Proof.
  destruct (delegate_error_propagates (H:=Faulty.delegate) [] Stub.never [1] 1%Z tt
              "resource exhausted")
    as (s' & Hrun & _ & Hprogress & Hout).
  - discriminate.
  - lia.
  - reflexivity.
  - intros j _. reflexivity.
  - exists s'. split; [exact Hrun|]. split; [exact Hprogress|exact Hout].
Defined.

End Faulty_runs.

Section Mixed_runs.
#[local] Existing Instance Mixed.delegate.

(** C6 as stated fails on the code.  The delegate yields an array of
    64-bit integers holding 16777217 and then a tensor of 32-bit floats:
    [torch.cat] promotes both to 32-bit floats, and the first image of the
    returned batch holds 16777216, which is not the first frame. *)
Lemma output_cast_by_torch_cat :
  let run := FilmInterpolation.do_interpolation
               [] Stub.never [(Mixed.float32, 0%Z)] 1 tt init in
  yielded (events run.2)
  = [inl (Mixed.int64, 16777217%Z); inr (Mixed.float32, 1%Z)]
  /\ run.1 = inr [(Mixed.float32, 16777216%Z); (Mixed.float32, 1%Z)]
  /\ (forall out,
        run.1 = inr out ->
        out !! 0
        <> FilmInterpolation.to_tensor <$> (yielded (events run.2) !! 0)).
Proof.
  intros run.
  assert (run.1 = inr [(Mixed.float32, 16777216%Z); (Mixed.float32, 1%Z)])
    as Hresult by reflexivity.
  split; [reflexivity|]. split; [exact Hresult|].
  intros out Hout. rewrite Hresult in Hout. injection Hout as <-.
  change (Some (Mixed.float32, 16777216%Z)
          <> Some (Mixed.int64, 16777217%Z)).
  discriminate.
Qed.

End Mixed_runs.
